(** * LS-8 emulator: the CPU class of [cpu.js] (fullest variant)

    A shallow embedding of the [CPU] class: its register file, the ALU,
    the flag helpers, the branch table, the instruction handlers and
    [tick], followed by the properties of the specification.

    JavaScript numbers are modelled by the type [value] below.  A
    non-integral number is the rational that the double holds: an
    operation whose exact result is not an integer rounds it to the
    nearest double.  Integral numbers are unbounded integers: an integral
    result is kept as it is, which is what the code computes up to 2^53.
    Infinities, NaN, the negative zero and [undefined] are kept, because
    the code can produce each of them (a division by zero, a read of a
    missing property). *)

From Stdlib Require Import ZArith QArith Qabs Bool List Ascii String Lia.
From Stdlib Require Qcanon.
Import ListNotations.
Local Open Scope Z_scope.

(** ** JavaScript values *)

Module Js.

(** [Inf true] is -Infinity; [Frac q] holds a non-integral double, as a
    rational in lowest terms. *)
Inductive value : Type :=
| Undef
| NaN
| Inf (neg : bool)
| NegZero
| Int (z : Z)
| Frac (q : Q).

Definition Q_eq_dec (p q : Q) : {p = q} + {p <> q}.
Proof. decide equality; [apply Pos.eq_dec | apply Z.eq_dec]. Defined.

Definition value_eq_dec (a b : value) : {a = b} + {a <> b}.
Proof.
  decide equality; [apply bool_dec | apply Z.eq_dec | apply Q_eq_dec].
Defined.

(** ToNumber: [undefined] becomes NaN. *)
Definition toNumber (v : value) : value :=
  match v with Undef => NaN | _ => v end.

(** The rational held by a finite number. *)
Definition toQ (v : value) : Q :=
  match v with
  | Int z => inject_Z z
  | Frac q => q
  | _ => 0%Q
  end.

(** The number holding exactly the rational [q]. *)
Definition exactQ (q : Q) : value :=
  let r := Qred q in
  if Pos.eqb (Qden r) 1 then Int (Qnum r) else Frac r.

(** The zero of the given sign. *)
Definition zero (neg : bool) : value := if neg then NegZero else Int 0.

(** [floor (log2 (n / d))] for positive [n] and [d]. *)
Definition floorLog2 (n d : Z) : Z :=
  let k := Z.log2 n - Z.log2 d in
  if (if 0 <=? k then d * 2 ^ k <=? n else d <=? n * 2 ^ (- k))
  then k else k - 1.

(** The integer nearest to [n / d], the even one of two equally near,
    for [0 <= n] and [0 < d]. *)
Definition roundHalfEven (n d : Z) : Z :=
  let q := n / d in
  match 2 * (n mod d) ?= d with
  | Lt => q
  | Gt => q + 1
  | Eq => if Z.even q then q else q + 1
  end.

(** Rounding of a rational to the nearest double (53 bits of
    significand, least exponent -1074, ties to even): the significand
    [m] and the exponent [e] of the result [m * 2 ^ e]; beyond the
    largest double the result is an infinity. *)
Definition roundDouble (q : Q) : value :=
  let n := Z.abs (Qnum q) in
  let d := Zpos (Qden q) in
  let neg := Qnum q <? 0 in
  if n =? 0 then Int 0
  else
    let e := Z.max (floorLog2 n d - 52) (- 1074) in
    let m := if 0 <=? e then roundHalfEven n (d * 2 ^ e)
             else roundHalfEven (n * 2 ^ (- e)) d in
    if (972 <=? e) || ((e =? 971) && (m =? 2 ^ 53)) then Inf neg
    else if m =? 0 then zero neg
    else
      let s := if neg then - m else m in
      if 0 <=? e then exactQ (inject_Z (s * 2 ^ e))
      else exactQ (Qmake s (Z.to_pos (2 ^ (- e)))).

(** The number that an operation with the exact result [q] yields: an
    integer as it is, anything else rounded to the nearest double. *)
Definition ofQ (q : Q) : value :=
  let r := Qred q in
  if Pos.eqb (Qden r) 1 then Int (Qnum r) else roundDouble r.

Definition isNaN (v : value) : bool :=
  match toNumber v with NaN => true | _ => false end.

Definition isInf (v : value) : bool :=
  match v with Inf _ => true | _ => false end.

Definition isZero (v : value) : bool :=
  match v with
  | NegZero => true
  | Int z => Z.eqb z 0
  | _ => false
  end.

(** Sign bit of a number. *)
Definition negative (v : value) : bool :=
  match v with
  | Inf s => s
  | NegZero => true
  | Int z => Z.ltb z 0
  | Frac q => Z.ltb (Qnum q) 0
  | _ => false
  end.

Definition jneg (v : value) : value :=
  match toNumber v with
  | Inf s => Inf (negb s)
  | NegZero => Int 0
  | Int z => if Z.eqb z 0 then NegZero else Int (- z)
  | Frac q => Frac (Qopp q)
  | w => w
  end.

(** [a + b] on numbers. *)
Definition jadd (a b : value) : value :=
  match toNumber a, toNumber b with
  | NaN, _ | _, NaN => NaN
  | Inf s, Inf t => if Bool.eqb s t then Inf s else NaN
  | Inf s, _ => Inf s
  | _, Inf t => Inf t
  | NegZero, NegZero => NegZero
  | x, y => ofQ (toQ x + toQ y)
  end.

(** [a - b]. *)
Definition jsub (a b : value) : value := jadd a (jneg b).

(** [a * b]. *)
Definition jmul (a b : value) : value :=
  let x := toNumber a in
  let y := toNumber b in
  let s := xorb (negative x) (negative y) in
  if isNaN x || isNaN y then NaN
  else if isInf x || isInf y then
    (if isZero x || isZero y then NaN else Inf s)
  else if isZero x || isZero y then zero s
  else ofQ (toQ x * toQ y).

(** [a / b]. *)
Definition jdiv (a b : value) : value :=
  let x := toNumber a in
  let y := toNumber b in
  let s := xorb (negative x) (negative y) in
  if isNaN x || isNaN y then NaN
  else if isInf x then (if isInf y then NaN else Inf s)
  else if isInf y then zero s
  else if isZero y then (if isZero x then NaN else Inf s)
  else if isZero x then zero s
  else ofQ (toQ x / toQ y).

(** Truncation of a rational towards zero. *)
Definition truncQ (q : Q) : Z := Z.quot (Qnum q) (Zpos (Qden q)).

(** [a % b]: the remainder has the sign of the dividend. *)
Definition jrem (a b : value) : value :=
  let x := toNumber a in
  let y := toNumber b in
  if isNaN x || isNaN y then NaN
  else if isInf x then NaN
  else if isInf y then x
  else if isZero y then NaN
  else if isZero x then x
  else
    let r := (toQ x - toQ y * inject_Z (truncQ (toQ x / toQ y)))%Q in
    if Qeq_bool r 0 then zero (negative x) else ofQ r.

(** Reduction into the signed 32-bit range. *)
Definition wrap32 (z : Z) : Z := (z + 2 ^ 31) mod 2 ^ 32 - 2 ^ 31.

(** ToInt32. *)
Definition toInt32 (v : value) : Z :=
  match v with
  | Int z => wrap32 z
  | Frac q => wrap32 (truncQ q)
  | _ => 0
  end.

(** [a & b], [a | b], [a ^ b], [~a]. *)
Definition jand (a b : value) : value := Int (Z.land (toInt32 a) (toInt32 b)).
Definition jor (a b : value) : value := Int (Z.lor (toInt32 a) (toInt32 b)).
Definition jxor (a b : value) : value := Int (Z.lxor (toInt32 a) (toInt32 b)).
Definition jnot (a : value) : value := Int (Z.lnot (toInt32 a)).

(** [a << n] and [a >> n]: the count is taken modulo 32. *)
Definition jshl (a n : value) : value :=
  Int (wrap32 (Z.shiftl (toInt32 a) (toInt32 n mod 32))).
Definition jshr (a n : value) : value :=
  Int (Z.shiftr (toInt32 a) (toInt32 n mod 32)).

(** [a === b]. *)
Definition strictEq (a b : value) : bool :=
  match a, b with
  | Undef, Undef => true
  | Undef, _ | _, Undef => false
  | NaN, _ | _, NaN => false
  | Inf s, Inf t => Bool.eqb s t
  | Inf _, _ | _, Inf _ => false
  | x, y => Qeq_bool (toQ x) (toQ y)
  end.

(** [a < b]. *)
Definition jlt (a b : value) : bool :=
  match toNumber a, toNumber b with
  | NaN, _ | _, NaN => false
  | Inf s, Inf t => s && negb t
  | Inf s, _ => s
  | _, Inf t => negb t
  | x, y => match Qcompare (toQ x) (toQ y) with Lt => true | _ => false end
  end.

(** [a > b]. *)
Definition jgt (a b : value) : bool := jlt b a.


(** ToBoolean of a number or [undefined]. *)
Definition truthy (v : value) : bool :=
  negb (isNaN v || isZero v).

(** [+b] for a boolean [b]. *)
Definition ofBool (b : bool) : value := if b then Int 1 else Int 0.

(** The property key a value selects: [-0] and [0] name the same
    property; other values name distinct ones. *)
Definition key (v : value) : value :=
  match v with NegZero => Int 0 | _ => v end.

End Js.

Import Js.

(** A byte: an integral number in 0..255. *)
Definition isByte (v : value) : bool :=
  match v with
  | Int z => (0 <=? z) && (z <? 256)
  | _ => false
  end.

(** ** The memory collaborator

    The CPU is constructed over a [ram] object of which it only calls
    [read] and [write].  Its class is not part of the sources, so it is
    a parameter of the development: any store that gives back the byte
    written at a byte address. *)
Class Memory : Type := {
  ram_t : Type;
  read : ram_t -> value -> value;
  write : ram_t -> value -> value -> ram_t;
  read_write : forall m a v,
    isByte a = true -> isByte v = true -> read (write m a v) a = v
}.

(** Modelled from the spec: the Memory collaborator, whose class is
    missing from the sources.  A flat store of 256 cells at the addresses
    0..255; [read] gives the content of a cell and [write] replaces it.
    The spec leaves accesses outside 0..255 to the collaborator: here such
    a read answers [undefined] and such a write is dropped. *)
Module Ram256.

(** Modelled from the spec: the cells of the Memory collaborator, one
    value per address. *)
Definition cells : Type := Z -> value.

(** Modelled from the spec: the addresses of the Memory collaborator,
    0..255. *)
Definition inRange (z : Z) : bool := (0 <=? z) && (z <? 256).

(** Modelled from the spec: [read(address)] of the Memory collaborator;
    outside 0..255 it answers [undefined]. *)
Definition read (m : cells) (address : value) : value :=
  match key address with
  | Int z => if inRange z then m z else Undef
  | _ => Undef
  end.

(** Modelled from the spec: [write(address, value)] of the Memory
    collaborator; outside 0..255 it does nothing. *)
Definition write (m : cells) (address v : value) : cells :=
  match key address with
  | Int z => if inRange z then (fun z' => if Z.eqb z' z then v else m z') else m
  | _ => m
  end.

(** Modelled from the spec: what the Loader collaborator leaves in the
    memory, the bytes of [prog] from address 0 on and 0 elsewhere. *)
Definition load (prog : list Z) : cells :=
  fun z => if z <? 0 then Int 0 else Int (nth (Z.to_nat z) prog 0).

End Ram256.

(** Modelled from the spec: the Memory collaborator as an instance of the
    interface the CPU uses. *)
#[export] Instance ram256 : Memory.
Proof.
  refine {| ram_t := Ram256.cells;
            read := Ram256.read;
            write := Ram256.write;
            read_write := _ |}.
  intros m a v Ha _. destruct a; try discriminate.
  unfold Ram256.read, Ram256.write; simpl in *. unfold Ram256.inRange.
  rewrite Ha. now rewrite Z.eqb_refl.
Defined.

(** ** Constants of [cpu.js] *)

(** The number written by a binary literal [0b...]. *)
Fixpoint bin_digits (acc : Z) (s : string) : Z :=
  match s with
  | EmptyString => acc
  | String c r => bin_digits (2 * acc + (if Ascii.eqb c "1"%char then 1 else 0)) r
  end.

Definition bin (s : string) : Z := bin_digits 0 s.

Definition IM : Z := 5.
Definition IS : Z := 6.
Definition SP : Z := 7.

Module Op.
Definition HLT : Z := bin "00000001"%string.
Definition LD : Z := bin "10011000"%string.
Definition LDI : Z := bin "10011001"%string.
Definition PRN : Z := bin "01000011"%string.
Definition ST : Z := bin "10011010"%string.
Definition NOP : Z := bin "00000000"%string.
Definition ADD : Z := bin "10101000"%string.
Definition SUB : Z := bin "10101001"%string.
Definition MUL : Z := bin "10101010"%string.
Definition DIV : Z := bin "10101011"%string.
Definition MOD : Z := bin "10101100"%string.
Definition INC : Z := bin "01111000"%string.
Definition DEC : Z := bin "01111001"%string.
Definition AND : Z := bin "10110011"%string.
Definition OR : Z := bin "10110001"%string.
Definition XOR : Z := bin "10110010"%string.
Definition NOT : Z := bin "01110000"%string.
Definition PUSH : Z := bin "01001101"%string.
Definition POP : Z := bin "01001100"%string.
Definition CALL : Z := bin "01001000"%string.
Definition RET : Z := bin "00001001"%string.
Definition CMP : Z := bin "10100000"%string.
Definition JMP : Z := bin "01010000"%string.
Definition JEQ : Z := bin "01010001"%string.
Definition JGT : Z := bin "01010100"%string.
Definition JLT : Z := bin "01010011"%string.
Definition JNE : Z := bin "01010010"%string.
End Op.

Definition FL_EQ : Z := 0.
Definition FL_GT : Z := 1.
Definition FL_LT : Z := 2.

(** ** The CPU *)

(** What [console.log] has been given: a register value ([PRN]), a fixed
    text, or the invalid-instruction text built around the value of IR. *)
Inductive line : Type :=
| LogValue (v : value)
| LogText (s : string)
| LogInvalid (ir : value).

Module CPU.

Section WithMemory.

Context {mem : Memory}.

(** The fields of a CPU object.  [reg] holds the indexed properties of
    [this.reg], by property key; [PC], [IR] and [FL] are its named
    properties.  [clock] tells whether the interval timer is armed. *)
Record cpu : Type := mkCPU {
  ram : ram_t;
  reg : value -> value;
  PC : value;
  IR : value;
  FL : value;
  clock : bool;
  console : list line
}.

Definition set_ram (s : cpu) (m : ram_t) : cpu :=
  mkCPU m (reg s) (PC s) (IR s) (FL s) (clock s) (console s).
Definition set_PC (s : cpu) (v : value) : cpu :=
  mkCPU (ram s) (reg s) v (IR s) (FL s) (clock s) (console s).
Definition set_IR (s : cpu) (v : value) : cpu :=
  mkCPU (ram s) (reg s) (PC s) v (FL s) (clock s) (console s).
Definition set_FL (s : cpu) (v : value) : cpu :=
  mkCPU (ram s) (reg s) (PC s) (IR s) v (clock s) (console s).
Definition set_clock (s : cpu) (b : bool) : cpu :=
  mkCPU (ram s) (reg s) (PC s) (IR s) (FL s) b (console s).

(** [console.log(l)] *)
Definition log (s : cpu) (l : line) : cpu :=
  mkCPU (ram s) (reg s) (PC s) (IR s) (FL s) (clock s) (console s ++ [l]).

(** [this.reg[k]] *)
Definition getReg (s : cpu) (k : value) : value := reg s (key k).

(** [this.reg[k] = v]: a missing property is created. *)
Definition setReg (s : cpu) (k v : value) : cpu :=
  mkCPU (ram s)
        (fun k' => if value_eq_dec k' (key k) then v else reg s k')
        (PC s) (IR s) (FL s) (clock s) (console s).

(** A handler takes the two operands and may return the next PC;
    [Undef] is the result of a handler that returns nothing. *)
Definition handler : Type := cpu -> value -> value -> cpu * value.

(** [new Array(8).fill(0)] with the reserved registers set. *)
Definition initialReg : value -> value :=
  fun k =>
    match k with
    | Int z =>
        if Z.eqb z SP then Int 0xF4
        else if (0 <=? z) && (z <? 8) then Int 0
        else Undef
    | _ => Undef
    end.

Definition poke (s : cpu) (address v : value) : cpu :=
  set_ram s (write (ram s) address v).

Definition startClock (s : cpu) : cpu := set_clock s true.

Definition stopClock (s : cpu) : cpu := set_clock s false.

Definition setFlag (s : cpu) (flag : Z) (b : bool) : cpu :=
  let v := ofBool b in
  if truthy v then set_FL s (jor (FL s) (jshl (Int 1) (Int flag)))
  else set_FL s (jand (FL s) (jnot (jshl (Int 1) (Int flag)))).

Definition getFlag (s : cpu) (flag : Z) : value :=
  jshr (jand (FL s) (jshl (Int 1) (Int flag))) (Int flag).

(** The [switch] of [alu]: an [op] that matches no case changes
    nothing. *)
Definition alu (s : cpu) (op : string) (regA regB : value) : cpu :=
  let a := getReg s regA in
  let b := getReg s regB in
  if String.eqb op "ADD" then setReg s regA (jand (jadd a b) (Int 255))
  else if String.eqb op "SUB" then setReg s regA (jand (jsub a b) (Int 255))
  else if String.eqb op "MUL" then setReg s regA (jand (jmul a b) (Int 255))
  else if String.eqb op "DIV" then setReg s regA (jdiv a b)
  else if String.eqb op "MOD" then setReg s regA (jrem a b)
  else if String.eqb op "INC" then setReg s regA (jand (jadd a (Int 1)) (Int 255))
  else if String.eqb op "DEC" then setReg s regA (jand (jsub a (Int 1)) (Int 255))
  else if String.eqb op "AND" then setReg s regA (jand a b)
  else if String.eqb op "OR" then setReg s regA (jor a b)
  else if String.eqb op "XOR" then setReg s regA (jxor a b)
  else if String.eqb op "NOT" then setReg s regA (jnot a)
  else if String.eqb op "CMP" then
    let s1 := setFlag s FL_EQ (strictEq a b) in
    let s2 := setFlag s1 FL_GT (jgt a b) in
    setFlag s2 FL_LT (jlt a b)
  else s.

(** *** Instruction handlers *)

Definition HLT : handler := fun s _ _ => (stopClock s, Undef).

Definition LD : handler := fun s regA regB =>
  (setReg s regA (read (ram s) (getReg s regB)), Undef).

Definition LDI : handler := fun s r v => (setReg s r v, Undef).

Definition PRN : handler := fun s r _ =>
  (log s (LogValue (getReg s r)), Undef).

Definition ST : handler := fun s regA regB =>
  (set_ram s (write (ram s) (getReg s regA) (getReg s regB)), Undef).

Definition NOP : handler := fun s _ _ => (s, Undef).

Definition ADD : handler := fun s regA regB => (alu s "ADD" regA regB, Undef).
Definition SUB : handler := fun s regA regB => (alu s "SUB" regA regB, Undef).
Definition MUL : handler := fun s regA regB => (alu s "MUL" regA regB, Undef).

Definition DIV : handler := fun s regA regB =>
  let s1 :=
    if strictEq (getReg s regB) (Int 0)
    then fst (HLT (log s (LogText "regB should not be zero")) Undef Undef)
    else s in
  (alu s1 "DIV" regA regB, Undef).

Definition MOD : handler := fun s regA regB =>
  let s1 :=
    if strictEq (getReg s regB) (Int 0)
    then fst (HLT (log s (LogText "regB should not be zero")) Undef Undef)
    else s in
  (alu s1 "MOD" regA regB, Undef).

Definition INC : handler := fun s r _ => (alu s "INC" r Undef, Undef).
Definition DEC : handler := fun s r _ => (alu s "DEC" r Undef, Undef).
Definition AND : handler := fun s regA regB => (alu s "AND" regA regB, Undef).
Definition OR : handler := fun s regA regB => (alu s "OR" regA regB, Undef).
Definition XOR : handler := fun s regA regB => (alu s "XOR" regA regB, Undef).
Definition NOT : handler := fun s r _ => (alu s "NOT" r Undef, Undef).

Definition _push (s : cpu) (v : value) : cpu :=
  let s1 := alu s "DEC" (Int SP) Undef in
  set_ram s1 (write (ram s1) (getReg s1 (Int SP)) v).

Definition PUSH : handler := fun s r _ => (_push s (getReg s r), Undef).

Definition _pop (s : cpu) : cpu * value :=
  let v := read (ram s) (getReg s (Int SP)) in
  (alu s "INC" (Int SP) Undef, v).

Definition POP : handler := fun s r _ =>
  let (s1, v) := _pop s in (setReg s1 r v, Undef).

Definition CALL : handler := fun s r _ =>
  let s1 := _push s (jadd (PC s) (Int 2)) in
  (s1, getReg s1 r).

Definition RET : handler := fun s _ _ => _pop s.

Definition CMP : handler := fun s regA regB => (alu s "CMP" regA regB, Undef).

Definition JMP : handler := fun s r _ => (s, getReg s r).

Definition JEQ : handler := fun s r _ =>
  if truthy (getFlag s FL_EQ) then (s, getReg s r) else (s, Undef).
Definition JGT : handler := fun s r _ =>
  if truthy (getFlag s FL_GT) then (s, getReg s r) else (s, Undef).
Definition JLT : handler := fun s r _ =>
  if truthy (getFlag s FL_LT) then (s, getReg s r) else (s, Undef).
Definition JNE : handler := fun s r _ =>
  if negb (truthy (getFlag s FL_EQ)) then (s, getReg s r) else (s, Undef).

(** *** The branch table *)

(** [bt[k] = h] *)
Definition bt_set (bt : list (Z * handler)) (k : Z) (h : handler) :
  list (Z * handler) := (k, h) :: bt.

(** [bt[v]]: the newest binding of the key that [v] selects. *)
Definition bt_get (bt : list (Z * handler)) (v : value) : option handler :=
  match key v with
  | Int z =>
      match find (fun kh => Z.eqb (fst kh) z) bt with
      | Some kh => Some (snd kh)
      | None => None
      end
  | _ => None
  end.

Definition setupBranchTable : list (Z * handler) :=
  fold_left (fun bt kh => bt_set bt (fst kh) (snd kh))
    [ (Op.HLT, HLT);
      (Op.LD, LD); (Op.LDI, LDI); (Op.PRN, PRN); (Op.ST, ST); (Op.NOP, NOP);
      (Op.ADD, ADD); (Op.SUB, SUB); (Op.MUL, MUL); (Op.DIV, DIV);
      (Op.MOD, MOD);
      (Op.INC, INC); (Op.DEC, DEC);
      (Op.AND, AND); (Op.OR, OR); (Op.XOR, XOR); (Op.NOT, NOT);
      (Op.PUSH, PUSH); (Op.POP, POP);
      (Op.CALL, CALL); (Op.RET, RET);
      (Op.CMP, CMP);
      (Op.JMP, JMP); (Op.JEQ, JEQ); (Op.JGT, JGT); (Op.JLT, JLT);
      (Op.JNE, JNE) ]
    [].

(** [this.branchTable], set once by the constructor. *)
Definition branchTable : list (Z * handler) := setupBranchTable.

(** The object built by [constructor(ram)]. *)
Definition constructor (m : ram_t) : cpu :=
  mkCPU m initialReg (Int 0) (Int 0) (Int 0) false [].

(** *** One cycle *)

Definition tick (s : cpu) : cpu :=
  let s := set_IR s (read (ram s) (PC s)) in
  match bt_get branchTable (IR s) with
  | None => stopClock (log s (LogInvalid (IR s)))
  | Some h =>
      let operandA := read (ram s) (jadd (PC s) (Int 1)) in
      let operandB := read (ram s) (jadd (PC s) (Int 2)) in
      let (s, newPC) := h s operandA operandB in
      match newPC with
      | Undef =>
          let count := jand (jshr (IR s) (Int 6)) (Int 3) in
          set_PC s (jadd (PC s) (jadd count (Int 1)))
      | _ => set_PC s newPC
      end
  end.

(** The timer armed by [startClock] calls [tick] until [stopClock]
    disarms it; [n] bounds the number of calls. *)
Fixpoint run (n : nat) (s : cpu) : cpu :=
  match n with
  | O => s
  | S n' => if clock s then run n' (tick s) else s
  end.

(** What [tick] does with the value the handler returned. *)
Definition advance (s : cpu) (newPC : value) : cpu :=
  match newPC with
  | Undef =>
      set_PC s (jadd (PC s) (jadd (jand (jshr (IR s) (Int 6)) (Int 3)) (Int 1)))
  | _ => set_PC s newPC
  end.

(** A handler that leaves PC and IR as they are. *)
Definition keepsPCIR (h : handler) : Prop :=
  forall s a b, PC (fst (h s a b)) = PC s /\ IR (fst (h s a b)) = IR s.

(** [op] leaves a byte in its first operand register whenever both
    operand registers hold bytes. *)
Definition yieldsByte (op : string) : Prop :=
  forall (s : cpu) (regA regB : value),
    isByte (getReg s regA) = true ->
    isByte (getReg s regB) = true ->
    isByte (getReg (alu s op regA regB) regA) = true.

End WithMemory.

End CPU.

(** The ALU operations that write a register, [NOT] apart. *)
Definition otherOps : list string :=
  ["ADD"; "SUB"; "MUL"; "DIV"; "MOD"; "INC"; "DEC"; "AND"; "OR"; "XOR"]%string.

(** The ALU operations whose case ends in [& 255]. *)
Definition maskedOps : list string :=
  ["ADD"; "SUB"; "MUL"; "INC"; "DEC"]%string.

(** ** Sample machines over the 256-cell memory *)

(** A CPU whose memory holds [prog], with its clock started. *)
Definition boot (prog : list Z) : @CPU.cpu ram256 :=
  CPU.startClock (CPU.constructor (Ram256.load prog)).

(** [boot prog] with R0 and R1 set. *)
Definition bootWith (prog : list Z) (r0 r1 : Z) : @CPU.cpu ram256 :=
  CPU.setReg (CPU.setReg (boot prog) (Int 0) (Int r0)) (Int 1) (Int r1).

(** [LDI R0,5; LDI R1,0; DIV R0,R1; PRN R0] *)
Definition divByZero : list Z :=
  [Op.LDI; 0; 5; Op.LDI; 1; 0; Op.DIV; 0; 1; Op.PRN; 0].

(** [LDI R0,5; LDI R1,0; MOD R0,R1; PRN R0] *)
Definition modByZero : list Z :=
  [Op.LDI; 0; 5; Op.LDI; 1; 0; Op.MOD; 0; 1; Op.PRN; 0].

(** ** A memory whose cells are independent *)

(** Writing a byte address leaves the other byte addresses as they
    were.  Like [read_write], this is asked of the memory the CPU is
    given. *)
Class MemoryFrame (mem : Memory) : Prop :=
  read_write_other : forall (m : ram_t) (a a' v : value),
    isByte a = true -> isByte a' = true -> a <> a' ->
    read (write m a v) a' = read m a'.

(** Modelled from the spec: the cells of the Memory collaborator are
    independent of each other. *)
#[export] Instance ram256_frame : MemoryFrame ram256.
Proof.
  intros m a a' v Ha Ha' Hne.
  destruct a as [| | | |z|]; try discriminate.
  destruct a' as [| | | |z'|]; try discriminate.
  simpl in *. unfold Ram256.read, Ram256.write; simpl. unfold Ram256.inRange.
  rewrite Ha, Ha'.
  destruct (Z.eqb_spec z' z) as [->|]; [now elim Hne | reflexivity].
Qed.

(** ** Names used in the statements *)

(** The case labels of the [switch] in [alu]. *)
Definition aluOps : list string :=
  ["ADD"; "SUB"; "MUL"; "DIV"; "MOD"; "INC"; "DEC"; "AND"; "OR"; "XOR";
   "NOT"; "CMP"]%string.

(** The conditional jumps. *)
Definition condJumps : list Z := [Op.JEQ; Op.JGT; Op.JLT; Op.JNE].

(** The outcome of comparing [a] with [b] that makes the conditional jump
    [op] transfer control. *)
Definition jumpTaken (op a b : Z) : bool :=
  if op =? Op.JEQ then a =? b
  else if op =? Op.JNE then negb (a =? b)
  else if op =? Op.JGT then b <? a
  else if op =? Op.JLT then a <? b
  else false.

(** The opcodes whose handlers call [ram.write], [console.log],
    [stopClock] and [setFlag]. *)
Definition memoryWriters : list Z := [Op.ST; Op.PUSH; Op.CALL].
Definition printers : list Z := [Op.PRN; Op.DIV; Op.MOD].
Definition stoppers : list Z := [Op.HLT; Op.DIV; Op.MOD].
Definition flagSetters : list Z := [Op.CMP].

(** The opcodes whose handlers assign no register. *)
Definition registerKeepers : list Z :=
  [Op.HLT; Op.PRN; Op.ST; Op.NOP; Op.CMP;
   Op.JMP; Op.JEQ; Op.JGT; Op.JLT; Op.JNE].

(** ** The first version of the class: [ls8/cpu.js]

    It knows five instructions; its ALU has the cases ['ADD'] and
    ['MUL'], without a mask; its constructor sets neither the flags nor
    the stack pointer; its [tick] does not look at what the handler
    returns. *)
Module Ls8.

Section WithMemory.

Context {mem : Memory}.

Definition handler : Type := CPU.cpu -> value -> value -> CPU.cpu.

(** [new Array(8).fill(0)]; [reg.FL] is never assigned. *)
Definition constructor (m : ram_t) : CPU.cpu :=
  CPU.mkCPU m
    (fun k =>
       match k with
       | Int z => if (0 <=? z) && (z <? 8) then Int 0 else Undef
       | _ => Undef
       end)
    (Int 0) (Int 0) Undef false [].

Definition poke (s : CPU.cpu) (address v : value) : CPU.cpu :=
  CPU.set_ram s (write (CPU.ram s) address v).

Definition startClock (s : CPU.cpu) : CPU.cpu := CPU.set_clock s true.

Definition stopClock (s : CPU.cpu) : CPU.cpu := CPU.set_clock s false.

(** [+] and [*] are those of [Js]: on integers the sum and the product
    are exact, which is what the code's doubles hold within
    [-2 ^ 53 .. 2 ^ 53]. *)
Definition alu (s : CPU.cpu) (op : string) (regA regB : value) : CPU.cpu :=
  let a := CPU.getReg s regA in
  let b := CPU.getReg s regB in
  if String.eqb op "ADD" then CPU.setReg s regA (jadd a b)
  else if String.eqb op "MUL" then CPU.setReg s regA (jmul a b)
  else s.

Definition HLT : handler := fun s _ _ => stopClock s.

Definition LDI : handler := fun s r v => CPU.setReg s r v.

Definition MUL : handler := fun s regA regB => alu s "MUL" regA regB.

Definition ADD : handler := fun s regA regB => alu s "ADD" regA regB.

Definition PRN : handler := fun s regA _ =>
  CPU.log s (LogValue (CPU.getReg s regA)).

(** [bt[k] = h] *)
Definition bt_set (bt : list (Z * handler)) (k : Z) (h : handler) :
  list (Z * handler) := (k, h) :: bt.

(** [bt[v]] *)
Definition bt_get (bt : list (Z * handler)) (v : value) : option handler :=
  match key v with
  | Int z =>
      match find (fun kh => Z.eqb (fst kh) z) bt with
      | Some kh => Some (snd kh)
      | None => None
      end
  | _ => None
  end.

Definition setupBranchTable : list (Z * handler) :=
  fold_left (fun bt kh => bt_set bt (fst kh) (snd kh))
    [ (Op.HLT, HLT); (Op.LDI, LDI); (Op.MUL, MUL); (Op.ADD, ADD);
      (Op.PRN, PRN) ]
    [].

Definition branchTable : list (Z * handler) := setupBranchTable.

Definition tick (s : CPU.cpu) : CPU.cpu :=
  let s := CPU.set_IR s (read (CPU.ram s) (CPU.PC s)) in
  match bt_get branchTable (CPU.IR s) with
  | None => stopClock (CPU.log s (LogInvalid (CPU.IR s)))
  | Some h =>
      let operandA := read (CPU.ram s) (jadd (CPU.PC s) (Int 1)) in
      let operandB := read (CPU.ram s) (jadd (CPU.PC s) (Int 2)) in
      let s := h s operandA operandB in
      let num := jand (jshr (CPU.IR s) (Int 6)) (Int 3) in
      CPU.set_PC s (jadd (CPU.PC s) (jadd num (Int 1)))
  end.

Fixpoint run (n : nat) (s : CPU.cpu) : CPU.cpu :=
  match n with
  | O => s
  | S n' => if CPU.clock s then run n' (tick s) else s
  end.

End WithMemory.

End Ls8.

(** A first-version CPU whose memory holds [prog], with its clock
    started. *)
Definition bootLs8 (prog : list Z) : @CPU.cpu ram256 :=
  Ls8.startClock (Ls8.constructor (Ram256.load prog)).

(** Whether the flags of [s] let the jump [op] transfer control. *)
Definition jumpEnabled {mem : Memory} (s : CPU.cpu) (op : Z) : bool :=
  if op =? Op.JMP then true
  else if op =? Op.JEQ then truthy (CPU.getFlag s FL_EQ)
  else if op =? Op.JGT then truthy (CPU.getFlag s FL_GT)
  else if op =? Op.JLT then truthy (CPU.getFlag s FL_LT)
  else if op =? Op.JNE then negb (truthy (CPU.getFlag s FL_EQ))
  else false.

(** The memory of [s] holds the bytes of [prog] from address [pc] on. *)
Definition programAt {mem : Memory} (s : CPU.cpu) (pc : Z) (prog : list Z) :
  Prop :=
  forall i : nat,
    (i < List.length prog)%nat ->
    read (CPU.ram s) (Int (pc + Z.of_nat i)) = Int (nth i prog 0).

(** [LDI R0,a; LDI R1,b; MUL R0,R1; PRN R0; HLT] *)
Definition mulProgram (a b : Z) : list Z :=
  [Op.LDI; 0; a; Op.LDI; 1; b; Op.MUL; 0; 1; Op.PRN; 0; Op.HLT].

(** * Properties *)

(** ** Arithmetic of integral values *)

Module JsFacts.

Lemma Qred_inject_Z z : Qred (inject_Z z) = inject_Z z.
Proof.
  apply Qcanon.Qred_identity. simpl. apply Z.gcd_1_r.
Qed.

Lemma ofQ_integral q z : (q == inject_Z z)%Q -> ofQ q = Int z.
Proof.
  intros H. unfold ofQ.
  rewrite (Qred_complete _ _ H), Qred_inject_Z. reflexivity.
Qed.

Lemma jadd_Int a b : jadd (Int a) (Int b) = Int (a + b).
Proof.
  unfold jadd; simpl. apply ofQ_integral.
  now rewrite inject_Z_plus.
Qed.

Lemma jneg_Int_toQ b : toQ (jneg (Int b)) = inject_Z (- b).
Proof.
  unfold jneg; simpl. destruct (Z.eqb_spec b 0) as [->|]; reflexivity.
Qed.

Lemma jsub_Int a b : jsub (Int a) (Int b) = Int (a - b).
Proof.
  unfold jsub, jadd, jneg; simpl.
  destruct (Z.eqb_spec b 0) as [->|Hb]; simpl; apply ofQ_integral.
  - rewrite Z.sub_0_r. ring.
  - unfold Z.sub. now rewrite inject_Z_plus.
Qed.

Lemma wrap32_mod z : wrap32 z mod 2 ^ 32 = z mod 2 ^ 32.
Proof.
  unfold wrap32.
  rewrite Zminus_mod, Zmod_mod, <- Zminus_mod.
  f_equal. lia.
Qed.

Lemma wrap32_range z : - 2 ^ 31 <= wrap32 z < 2 ^ 31.
Proof.
  unfold wrap32. pose proof (Z.mod_pos_bound (z + 2 ^ 31) (2 ^ 32)). lia.
Qed.

Lemma wrap32_small z : - 2 ^ 31 <= z < 2 ^ 31 -> wrap32 z = z.
Proof.
  intros H. unfold wrap32. rewrite Z.mod_small; lia.
Qed.

Lemma wrap32_mod_pow2 z n : 0 <= n <= 32 -> wrap32 z mod 2 ^ n = z mod 2 ^ n.
Proof.
  intros Hn.
  assert (D : (2 ^ n | 2 ^ 32)).
  { exists (2 ^ (32 - n)). rewrite <- Z.pow_add_r by lia. f_equal; lia. }
  rewrite <- (Z.mod_mod_divide (wrap32 z) (2 ^ 32) (2 ^ n) D).
  rewrite wrap32_mod.
  now apply Z.mod_mod_divide.
Qed.

Lemma mask255 v : jand v (Int 255) = Int (toInt32 v mod 256).
Proof.
  unfold jand. f_equal.
  change (toInt32 (Int 255)) with (Z.ones 8).
  rewrite Z.land_ones by lia. reflexivity.
Qed.

Lemma mask255_Int z : jand (Int z) (Int 255) = Int (z mod 256).
Proof.
  rewrite mask255. simpl. f_equal.
  apply (wrap32_mod_pow2 z 8). lia.
Qed.

Lemma toInt32_jmul_Int a b : toInt32 (jmul (Int a) (Int b)) = wrap32 (a * b).
Proof.
  unfold jmul; simpl.
  destruct (Z.eqb_spec a 0) as [->|Ha]; simpl.
  - now destruct (b <? 0).
  - destruct (Z.eqb_spec b 0) as [->|Hb]; simpl.
    + rewrite Z.mul_0_r. now destruct (a <? 0).
    + rewrite (ofQ_integral _ (a * b)); [reflexivity|].
      now rewrite inject_Z_mult.
Qed.

Lemma strictEq_Int a b : strictEq (Int a) (Int b) = Z.eqb a b.
Proof.
  change (strictEq (Int a) (Int b)) with (Qeq_bool (inject_Z a) (inject_Z b)).
  destruct (Z.eqb_spec a b) as [->|Hne].
  - apply Qeq_bool_refl.
  - destruct (Qeq_bool _ _) eqn:E; [|reflexivity].
    apply Qeq_bool_eq in E. now apply (proj1 (inject_Z_injective a b)) in E.
Qed.

Lemma jlt_Int a b : jlt (Int a) (Int b) = Z.ltb a b.
Proof.
  change (jlt (Int a) (Int b))
    with (match (inject_Z a ?= inject_Z b)%Q with Lt => true | _ => false end).
  unfold Qcompare, inject_Z; simpl. rewrite !Z.mul_1_r.
  reflexivity.
Qed.



(** *** Rounding to the nearest double *)



Lemma roundHalfEven_exact m d : 0 < d -> roundHalfEven (m * d) d = m.
Proof.
  intros Hd. unfold roundHalfEven.
  rewrite Z.mod_mul, Z.div_mul by lia.
  destruct (Z.compare_spec (2 * 0) d); lia.
Qed.


Lemma pow2_split a b :
  0 <= a -> 0 <= b ->
  2 ^ (a + b) = 2 ^ a * 2 ^ b /\ 0 < 2 ^ a /\ 0 < 2 ^ b.
Proof.
  intros. rewrite Z.pow_add_r by lia.
  repeat split; apply Z.pow_pos_nonneg; lia.
Qed.

(** [floorLog2 n d] is the exponent of the binade of [n / d]:
    [2 ^ f <= n / d < 2 ^ (f + 1)], written without fractions. *)
Lemma floorLog2_lower n d j :
  0 < n -> 0 < d -> 0 <= j -> floorLog2 n d <= j ->
  d * 2 ^ j <= n * 2 ^ (j - floorLog2 n d).
Proof.
  intros Hn Hd Hj. unfold floorLog2.
  set (k := Z.log2 n - Z.log2 d).
  pose proof (Z.log2_spec n Hn) as [Ln _].
  pose proof (Z.log2_spec d Hd) as [_ Ud].
  pose proof (Z.log2_nonneg n). pose proof (Z.log2_nonneg d).
  destruct (Z.leb_spec 0 k) as [K|K].
  - destruct (Z.leb_spec (d * 2 ^ k) n) as [T|T]; intros F.
    + replace j with (k + (j - k)) at 1 by lia.
      destruct (pow2_split k (j - k)) as (-> & P1 & P2); try lia.
      rewrite Z.mul_assoc. apply Z.mul_le_mono_nonneg_r; lia.
    + (* the binade is one below *)
      assert (D : d * 2 ^ k < 2 ^ k * 2 ^ Z.succ (Z.log2 d)).
      { assert (0 < 2 ^ k) by (apply Z.pow_pos_nonneg; lia).
        rewrite Z.mul_comm. apply Z.mul_lt_mono_pos_l; lia. }
      assert (E : 2 ^ k * 2 ^ Z.succ (Z.log2 d) = 2 ^ Z.log2 n * 2).
      { rewrite <- Z.pow_add_r by lia.
        replace (k + Z.succ (Z.log2 d)) with (Z.succ (Z.log2 n)) by lia.
        rewrite Z.pow_succ_r by lia. lia. }
      destruct (Z.eq_dec j (k - 1)) as [->|J].
      { replace (k - 1 - (k - 1)) with 0 by lia.
        destruct (pow2_split 1 (k - 1)) as (P & _ & _); try lia.
        replace (1 + (k - 1)) with k in P by lia.
        change (2 ^ 1) with 2 in P. change (2 ^ 0) with 1. lia. }
      replace (j - (k - 1)) with (1 + (j - k)) by lia.
      replace j with (k + (j - k)) at 1 by lia.
      destruct (pow2_split k (j - k)) as (-> & P1 & P2); try lia.
      destruct (pow2_split 1 (j - k)) as (-> & _ & _); try lia.
      change (2 ^ 1) with 2.
      rewrite !Z.mul_assoc. apply Z.mul_le_mono_nonneg_r; lia.
  - destruct (Z.leb_spec d (n * 2 ^ (- k))) as [T|T]; intros F.
    + replace (j - k) with (- k + j) by lia.
      destruct (pow2_split (- k) j) as (-> & P1 & P2); try lia.
      rewrite Z.mul_assoc. apply Z.mul_le_mono_nonneg_r; lia.
    + assert (D : d < 2 ^ (Z.log2 n) * 2 ^ (1 - k)).
      { rewrite <- Z.pow_add_r by lia.
        replace (Z.log2 n + (1 - k)) with (Z.succ (Z.log2 d)) by lia. exact Ud. }
      replace (j - (k - 1)) with ((1 - k) + j) by lia.
      destruct (pow2_split (1 - k) j) as (-> & P1 & P2); try lia.
      rewrite Z.mul_assoc. apply Z.mul_le_mono_nonneg_r; [lia|].
      assert (2 ^ Z.log2 n * 2 ^ (1 - k) <= n * 2 ^ (1 - k))
        by (apply Z.mul_le_mono_nonneg_r; lia).
      lia.
Qed.

Lemma floorLog2_upper n d j :
  0 < n -> 0 < d -> 0 <= j -> floorLog2 n d + 1 <= j ->
  n * 2 ^ (j - floorLog2 n d - 1) < d * 2 ^ j.
Proof.
  intros Hn Hd Hj. unfold floorLog2.
  set (k := Z.log2 n - Z.log2 d).
  pose proof (Z.log2_spec n Hn) as [_ Un].
  pose proof (Z.log2_spec d Hd) as [Ld _].
  pose proof (Z.log2_nonneg n). pose proof (Z.log2_nonneg d).
  destruct (Z.leb_spec 0 k) as [K|K].
  - destruct (Z.leb_spec (d * 2 ^ k) n) as [T|T]; intros F.
    + assert (D : n < d * 2 ^ (k + 1)).
      { apply Z.lt_le_trans with (2 ^ Z.succ (Z.log2 n)); [exact Un|].
        replace (Z.succ (Z.log2 n)) with (Z.log2 d + (k + 1)) by lia.
        destruct (pow2_split (Z.log2 d) (k + 1)) as (-> & P1 & P2); try lia.
        apply Z.mul_le_mono_nonneg_r; lia. }
      replace j with ((k + 1) + (j - k - 1)) at 2 by lia.
      destruct (pow2_split (k + 1) (j - k - 1)) as (-> & P1 & P2); try lia.
      rewrite Z.mul_assoc. apply Z.mul_lt_mono_pos_r; lia.
    + replace (j - (k - 1) - 1) with (j - k) by lia.
      replace j with (k + (j - k)) at 2 by lia.
      destruct (pow2_split k (j - k)) as (-> & P1 & P2); try lia.
      rewrite Z.mul_assoc. apply Z.mul_lt_mono_pos_r; lia.
  - destruct (Z.leb_spec d (n * 2 ^ (- k))) as [T|T]; intros F.
    + assert (D : n * 2 ^ (- k - 1) < d).
      { apply Z.lt_le_trans with (2 ^ Z.log2 d); [|exact Ld].
        replace (Z.log2 d) with (Z.succ (Z.log2 n) + (- k - 1)) by lia.
        destruct (pow2_split (Z.succ (Z.log2 n)) (- k - 1)) as (-> & P1 & P2); try lia.
        apply Z.mul_lt_mono_pos_r; lia. }
      replace (j - k - 1) with ((- k - 1) + j) by lia.
      destruct (pow2_split (- k - 1) j) as (-> & P1 & P2); try lia.
      rewrite Z.mul_assoc. apply Z.mul_lt_mono_pos_r; lia.
    + replace (j - (k - 1) - 1) with (- k + j) by lia.
      destruct (pow2_split (- k) j) as (-> & P1 & P2); try lia.
      rewrite Z.mul_assoc. apply Z.mul_lt_mono_pos_r; lia.
Qed.


(** Below [2 ^ 53] every integer is a double: rounding leaves it as it
    is, so that [ofQ] rounds such a result whether it is integral or
    not. *)
Lemma roundDouble_integer z :
  Z.abs z < 2 ^ 53 -> roundDouble (inject_Z z) = Int z.
Proof.
  intros B. unfold roundDouble. cbn [Qnum Qden inject_Z].
  set (n := Z.abs z).
  destruct (Z.eqb_spec n 0) as [E|N]; [f_equal; lia|].
  assert (Hn : 0 < n) by lia.
  set (f := floorLog2 n 1).
  assert (Fu : f <= 52).
  { destruct (Z.le_gt_cases f 52) as [|F]; [assumption|exfalso].
    pose proof (floorLog2_lower n 1 f Hn ltac:(lia) ltac:(fold f; lia)) as L.
    fold f in L. rewrite Z.sub_diag in L. change (2 ^ 0) with 1 in L.
    destruct (pow2_split 53 (f - 53)) as (P & P1 & P2); try lia.
    replace (53 + (f - 53)) with f in P by lia. nia. }
  assert (Fl : 0 <= f).
  { destruct (Z.le_gt_cases 0 f) as [|F]; [assumption|exfalso].
    pose proof (floorLog2_upper n 1 0 Hn ltac:(lia) ltac:(fold f; lia)) as U.
    fold f in U. change (2 ^ 0) with 1 in U.
    assert (0 < 2 ^ (0 - f - 1)) by (apply Z.pow_pos_nonneg; lia). nia. }
  rewrite (Z.max_l (f - 52) (- 1074)) by lia.
  assert (S : (if z <? 0 then - n else n) = z)
    by (unfold n; destruct (Z.ltb_spec z 0); lia).
  destruct (Z.leb_spec 0 (f - 52)) as [G|G].
  - assert (f = 52) by lia.
    replace (f - 52) with 0 by lia. cbn [Z.leb Z.eqb orb andb Z.compare].
    change (1 * 2 ^ 0) with 1.
    assert (R : roundHalfEven n 1 = n).
    { rewrite <- (Z.mul_1_r n) at 1. apply roundHalfEven_exact. lia. }
    rewrite R.
    destruct (Z.eqb_spec n 0) as [|_]; [contradiction|].
    rewrite S, Z.mul_1_r. unfold exactQ. now rewrite Qred_inject_Z.
  - replace (- (f - 52)) with (52 - f) by lia.
    set (k := 52 - f).
    assert (Pk : 0 < 2 ^ k) by (apply Z.pow_pos_nonneg; lia).
    assert (R : roundHalfEven (n * 2 ^ k) 1 = n * 2 ^ k).
    { rewrite <- (Z.mul_1_r (n * 2 ^ k)) at 1. apply roundHalfEven_exact. lia. }
    rewrite R.
    destruct (Z.leb_spec 972 (f - 52)) as [|_]; [lia|].
    destruct (Z.eqb_spec (f - 52) 971) as [|_]; [lia|].
    cbn [orb andb].
    destruct (Z.eqb_spec (n * 2 ^ k) 0) as [|_]; [nia|].
    assert (E : (if z <? 0 then - (n * 2 ^ k) else n * 2 ^ k) = z * 2 ^ k)
      by (unfold n; destruct (Z.ltb_spec z 0);
          [rewrite Z.abs_neq by lia | rewrite Z.abs_eq by lia]; ring).
    rewrite E. unfold exactQ.
    assert (Q : (z * 2 ^ k # Z.to_pos (2 ^ k) == inject_Z z)%Q).
    { unfold Qeq; cbn [Qnum Qden inject_Z]. rewrite Z2Pos.id by assumption. ring. }
    rewrite (Qred_complete _ _ Q), Qred_inject_Z. reflexivity.
Qed.









(** *** Bits of the flags register *)

Lemma testbit_wrap32 z i : 0 <= i < 32 -> Z.testbit (wrap32 z) i = Z.testbit z i.
Proof.
  intros Hi.
  rewrite <- (Z.mod_pow2_bits_low (wrap32 z) 32 i) by lia.
  rewrite wrap32_mod.
  apply Z.mod_pow2_bits_low. lia.
Qed.

Lemma testbit_toInt32_Int z i :
  0 <= i < 32 -> Z.testbit (toInt32 (Int z)) i = Z.testbit z i.
Proof. apply testbit_wrap32. Qed.

Lemma land_pow2 f i :
  0 <= i -> Z.land f (2 ^ i) = if Z.testbit f i then 2 ^ i else 0.
Proof.
  intros Hi. apply Z.bits_inj'. intros n Hn.
  rewrite Z.land_spec, Z.pow2_bits_eqb by lia.
  destruct (Z.eqb_spec i n) as [->|Hne].
  - destruct (Z.testbit f n); simpl.
    + now rewrite Z.pow2_bits_true.
    + now rewrite Z.bits_0.
  - rewrite andb_false_r.
    destruct (Z.testbit f i).
    + rewrite Z.pow2_bits_false; auto.
    + now rewrite Z.bits_0.
Qed.

Lemma shift1 i : 0 <= i < 31 -> jshl (Int 1) (Int i) = Int (2 ^ i).
Proof.
  intros Hi. unfold jshl; simpl.
  rewrite (wrap32_small 1) by (simpl; lia).
  rewrite (wrap32_small i) by (simpl; lia).
  rewrite Z.mod_small by lia.
  rewrite Z.shiftl_1_l. rewrite wrap32_small; [reflexivity|].
  assert (2 ^ i < 2 ^ 31) by (apply Z.pow_lt_mono_r; lia).
  assert (0 < 2 ^ i) by (apply Z.pow_pos_nonneg; lia).
  lia.
Qed.

End JsFacts.

Import JsFacts CPU.

(** ** The register file *)

Section RegisterFile.

Context {mem : Memory}.

Lemma key_idem k : key (key k) = key k.
Proof. now destruct k. Qed.

Lemma getReg_setReg_same s k v : getReg (setReg s k v) k = v.
Proof.
  unfold getReg, setReg; simpl.
  now destruct (value_eq_dec (key k) (key k)).
Qed.

Lemma getReg_setReg_other s k k' v :
  key k' <> key k -> getReg (setReg s k v) k' = getReg s k'.
Proof.
  intros H. unfold getReg, setReg; simpl.
  now destruct (value_eq_dec (key k') (key k)).
Qed.

Lemma isByte_mask v : isByte (jand v (Int 255)) = true.
Proof.
  rewrite mask255. simpl.
  pose proof (Z.mod_pos_bound (toInt32 v) 256).
  apply andb_true_iff; split; [apply Z.leb_le | apply Z.ltb_lt]; lia.
Qed.

Lemma isByte_Int z : isByte (Int z) = true <-> 0 <= z < 256.
Proof.
  simpl. rewrite andb_true_iff, Z.leb_le, Z.ltb_lt. tauto.
Qed.

End RegisterFile.

(** ** The ALU *)

Section ALU.

Context {mem : Memory}.

(** C7.  For integral register values [a] and [b], [ADD], [SUB] and [MUL]
    write [(a OP b) mod 256] into the first operand register, and [INC]
    and [DEC] write [(a + 1) mod 256] and [(a - 1) mod 256]: incrementing
    255 gives 0 and decrementing 0 gives 255. *)
Theorem alu_arithmetic_wraps (s : cpu) (regA regB : value) (a b : Z) :
  getReg s regA = Int a ->
  getReg s regB = Int b ->
  getReg (alu s "ADD" regA regB) regA = Int ((a + b) mod 256) /\
  getReg (alu s "SUB" regA regB) regA = Int ((a - b) mod 256) /\
  getReg (alu s "MUL" regA regB) regA = Int ((a * b) mod 256) /\
  getReg (alu s "INC" regA Undef) regA = Int ((a + 1) mod 256) /\
  getReg (alu s "DEC" regA Undef) regA = Int ((a - 1) mod 256) /\
  (a = 255 -> getReg (alu s "INC" regA Undef) regA = Int 0) /\
  (a = 0 -> getReg (alu s "DEC" regA Undef) regA = Int 255).
Proof.
  intros Ha Hb.
  assert (ADD : getReg (alu s "ADD" regA regB) regA = Int ((a + b) mod 256)).
  { change (alu s "ADD" regA regB)
      with (setReg s regA (jand (jadd (getReg s regA) (getReg s regB)) (Int 255))).
    now rewrite getReg_setReg_same, Ha, Hb, jadd_Int, mask255_Int. }
  assert (SUB : getReg (alu s "SUB" regA regB) regA = Int ((a - b) mod 256)).
  { change (alu s "SUB" regA regB)
      with (setReg s regA (jand (jsub (getReg s regA) (getReg s regB)) (Int 255))).
    now rewrite getReg_setReg_same, Ha, Hb, jsub_Int, mask255_Int. }
  assert (MUL : getReg (alu s "MUL" regA regB) regA = Int ((a * b) mod 256)).
  { change (alu s "MUL" regA regB)
      with (setReg s regA (jand (jmul (getReg s regA) (getReg s regB)) (Int 255))).
    rewrite getReg_setReg_same, Ha, Hb, mask255, toInt32_jmul_Int.
    f_equal. apply (wrap32_mod_pow2 (a * b) 8). lia. }
  assert (INC : getReg (alu s "INC" regA Undef) regA = Int ((a + 1) mod 256)).
  { change (alu s "INC" regA Undef)
      with (setReg s regA (jand (jadd (getReg s regA) (Int 1)) (Int 255))).
    now rewrite getReg_setReg_same, Ha, jadd_Int, mask255_Int. }
  assert (DEC : getReg (alu s "DEC" regA Undef) regA = Int ((a - 1) mod 256)).
  { change (alu s "DEC" regA Undef)
      with (setReg s regA (jand (jsub (getReg s regA) (Int 1)) (Int 255))).
    now rewrite getReg_setReg_same, Ha, jsub_Int, mask255_Int. }
  repeat split; auto.
  - intros ->. exact INC.
  - intros ->. exact DEC.
Qed.

Lemma alu_masked s op regA regB :
  In op maskedOps -> isByte (getReg (alu s op regA regB) regA) = true.
Proof.
  unfold maskedOps; simpl.
  intros [<-|[<-|[<-|[<-|[<-|[]]]]]];
    match goal with
    | |- context [alu s ?o regA regB] =>
        let t := eval cbv beta iota delta
                   [alu String.eqb Ascii.eqb Bool.eqb] in (alu s o regA regB) in
        change (alu s o regA regB) with t
    end;
    rewrite getReg_setReg_same; apply isByte_mask.
Qed.

(** C9, amended.  For a register holding a byte [v], [NOT] writes the
    bitwise complement [-v - 1] with no 8-bit mask, so the stored value is
    never a byte; this is unlike [ADD], [SUB], [MUL], [INC] and [DEC],
    whose results are masked to 8 bits. *)
Theorem alu_not_unmasked (s : cpu) (r : value) (v : Z) :
  getReg s r = Int v ->
  0 <= v < 256 ->
  getReg (alu s "NOT" r Undef) r = Int (Z.lnot v) /\
  Z.lnot v = - v - 1 /\
  isByte (getReg (alu s "NOT" r Undef) r) = false /\
  (forall op regB, In op maskedOps ->
     isByte (getReg (alu s op r regB) r) = true).
Proof.
  intros Hr Hv.
  assert (E : getReg (alu s "NOT" r Undef) r = Int (Z.lnot v)).
  { change (alu s "NOT" r Undef) with (setReg s r (jnot (getReg s r))).
    rewrite getReg_setReg_same, Hr. unfold jnot; simpl.
    rewrite wrap32_small; [reflexivity | simpl; lia]. }
  assert (L : Z.lnot v = - v - 1) by (pose proof (Z.add_lnot_diag v); lia).
  repeat split; auto.
  - rewrite E, L. simpl.
    destruct (Z.leb_spec 0 (- v - 1)); [lia | reflexivity].
  - intros op regB Hop. now apply alu_masked.
Qed.


End ALU.

(** ** The flags *)

Section Flags.

Context {mem : Memory}.

Lemma FL_setFlag s i b :
  0 <= i < 31 ->
  FL (setFlag s i b) =
  Int (if b then Z.lor (toInt32 (FL s)) (2 ^ i)
       else Z.land (toInt32 (FL s)) (Z.lnot (2 ^ i))).
Proof.
  intros Hi.
  assert (P : 0 < 2 ^ i) by (apply Z.pow_pos_nonneg; lia).
  assert (B : 2 ^ i < 2 ^ 31) by (apply Z.pow_lt_mono_r; lia).
  unfold setFlag. destruct b; simpl; rewrite shift1 by assumption.
  - unfold jor. simpl. rewrite wrap32_small by lia. reflexivity.
  - unfold jand, jnot. simpl. rewrite (wrap32_small (2 ^ i)) by lia.
    rewrite wrap32_small; [reflexivity|].
    pose proof (Z.add_lnot_diag (2 ^ i)). lia.
Qed.

Lemma testbit_setFlag s i b j :
  0 <= i < 31 -> 0 <= j < 32 ->
  Z.testbit (toInt32 (FL (setFlag s i b))) j =
  if Z.eqb j i then b else Z.testbit (toInt32 (FL s)) j.
Proof.
  intros Hi Hj. rewrite FL_setFlag by assumption.
  rewrite testbit_toInt32_Int by assumption.
  destruct b.
  - rewrite Z.lor_spec, Z.pow2_bits_eqb by lia.
    rewrite (Z.eqb_sym i j).
    destruct (Z.eqb j i); [apply orb_true_r | apply orb_false_r].
  - rewrite Z.land_spec, Z.lnot_spec, Z.pow2_bits_eqb by lia.
    rewrite (Z.eqb_sym i j).
    destruct (Z.eqb j i); [apply andb_false_r | apply andb_true_r].
Qed.

Lemma getFlag_testbit s i :
  0 <= i < 31 ->
  getFlag s i = Int (Z.b2z (Z.testbit (toInt32 (FL s)) i)).
Proof.
  intros Hi.
  assert (P : 0 < 2 ^ i) by (apply Z.pow_pos_nonneg; lia).
  assert (B : 2 ^ i < 2 ^ 31) by (apply Z.pow_lt_mono_r; lia).
  unfold getFlag. rewrite shift1 by assumption.
  unfold jshr, jand. f_equal.
  change (toInt32 (Int (2 ^ i))) with (wrap32 (2 ^ i)).
  change (toInt32 (Int i)) with (wrap32 i).
  rewrite (wrap32_small (2 ^ i)) by lia.
  rewrite (wrap32_small i) by (simpl; lia).
  rewrite (Z.mod_small i 32) by lia.
  rewrite land_pow2 by lia.
  change (toInt32 (Int ?x)) with (wrap32 x).
  destruct (Z.testbit (toInt32 (FL s)) i).
  - change (toInt32 (Int (2 ^ i))) with (wrap32 (2 ^ i)).
    rewrite wrap32_small by lia.
    rewrite Z.shiftr_div_pow2 by lia. simpl. apply Z.div_same. lia.
  - rewrite (wrap32_small 0) by (simpl; lia). apply Z.shiftr_0_l.
Qed.

Lemma alu_CMP s regA regB :
  alu s "CMP" regA regB =
  setFlag
    (setFlag (setFlag s FL_EQ (strictEq (getReg s regA) (getReg s regB)))
       FL_GT (jgt (getReg s regA) (getReg s regB)))
    FL_LT (jlt (getReg s regA) (getReg s regB)).
Proof. reflexivity. Qed.

Lemma setFlag_frame s i b :
  ram (setFlag s i b) = ram s /\ reg (setFlag s i b) = reg s /\
  PC (setFlag s i b) = PC s /\ IR (setFlag s i b) = IR s /\
  clock (setFlag s i b) = clock s /\ console (setFlag s i b) = console s.
Proof. unfold setFlag. now destruct b. Qed.

(** C8.  For integral register values [a] and [b], [CMP] sets the EQUAL
    flag iff [a = b], GREATER-THAN iff [a > b] and LESS-THAN iff [a < b],
    so exactly one of the three is set; the registers, PC, IR and the
    memory are left as they were. *)
Theorem alu_cmp_flags (s : cpu) (regA regB : value) (a b : Z) :
  getReg s regA = Int a ->
  getReg s regB = Int b ->
  let s' := alu s "CMP" regA regB in
  getFlag s' FL_EQ = Int (Z.b2z (a =? b)) /\
  getFlag s' FL_GT = Int (Z.b2z (b <? a)) /\
  getFlag s' FL_LT = Int (Z.b2z (a <? b)) /\
  Z.b2z (a =? b) + Z.b2z (b <? a) + Z.b2z (a <? b) = 1 /\
  reg s' = reg s /\ PC s' = PC s /\ IR s' = IR s /\ ram s' = ram s.
Proof.
  intros Ha Hb s'. subst s'. rewrite alu_CMP, Ha, Hb.
  unfold jgt. rewrite strictEq_Int, !jlt_Int.
  rewrite !getFlag_testbit by (unfold FL_EQ, FL_GT, FL_LT; lia).
  rewrite !testbit_setFlag by (unfold FL_EQ, FL_GT, FL_LT; lia).
  simpl Z.eqb. cbv iota.
  repeat split.
  - destruct (Z.eqb_spec a b), (Z.ltb_spec b a), (Z.ltb_spec a b);
      simpl; lia.
  - now repeat (etransitivity; [apply setFlag_frame|]).
  - now repeat (etransitivity; [apply setFlag_frame|]).
  - now repeat (etransitivity; [apply setFlag_frame|]).
  - now repeat (etransitivity; [apply setFlag_frame|]).
Qed.

End Flags.

(** ** The stack *)

Section Stack.

Context {mem : Memory}.

Lemma alu_DEC s r :
  alu s "DEC" r Undef = setReg s r (jand (jsub (getReg s r) (Int 1)) (Int 255)).
Proof. reflexivity. Qed.

Lemma alu_INC s r :
  alu s "INC" r Undef = setReg s r (jand (jadd (getReg s r) (Int 1)) (Int 255)).
Proof. reflexivity. Qed.

Lemma getReg_set_ram s m k : getReg (set_ram s m) k = getReg s k.
Proof. reflexivity. Qed.

(** The stack pointer after [_push] is a byte, whatever it was. *)
Lemma push_SP_byte s v : isByte (getReg (_push s v) (Int SP)) = true.
Proof.
  unfold _push. rewrite getReg_set_ram, alu_DEC, getReg_setReg_same.
  apply isByte_mask.
Qed.

Lemma push_SP s v sp :
  getReg s (Int SP) = Int sp ->
  getReg (_push s v) (Int SP) = Int ((sp - 1) mod 256).
Proof.
  intros H. unfold _push.
  now rewrite getReg_set_ram, alu_DEC, getReg_setReg_same, H, jsub_Int,
    mask255_Int.
Qed.

Lemma push_other s v k :
  key k <> key (Int SP) -> getReg (_push s v) k = getReg s k.
Proof.
  intros H. unfold _push.
  now rewrite getReg_set_ram, alu_DEC, getReg_setReg_other.
Qed.

(** The pushed byte is on top of the stack. *)
Lemma push_top s v :
  isByte v = true ->
  read (ram (_push s v)) (getReg (_push s v) (Int SP)) = v.
Proof.
  intros Hv. pose proof (push_SP_byte s v) as Hsp.
  unfold _push in *. simpl ram. rewrite getReg_set_ram in *.
  now apply read_write.
Qed.

Lemma pop_SP s sp :
  getReg s (Int SP) = Int sp ->
  getReg (fst (_pop s)) (Int SP) = Int ((sp + 1) mod 256).
Proof.
  intros H. unfold _pop; simpl fst.
  now rewrite alu_INC, getReg_setReg_same, H, jadd_Int, mask255_Int.
Qed.

Lemma dec_inc_byte sp : 0 <= sp < 256 -> ((sp - 1) mod 256 + 1) mod 256 = sp.
Proof.
  intros H. rewrite Z.add_mod_idemp_l by lia.
  replace (sp - 1 + 1) with sp by lia. apply Z.mod_small; lia.
Qed.

(** C3.  When register [r] and the stack pointer hold bytes, [PUSH r]
    followed by [POP r] gives back to both the value they had before the
    [PUSH], whatever the memory. *)
Theorem push_pop_restores (s : cpu) (r x y : value) :
  isByte (getReg s r) = true ->
  isByte (getReg s (Int SP)) = true ->
  let s1 := fst (PUSH s r x) in
  let s2 := fst (POP s1 r y) in
  getReg s2 r = getReg s r /\ getReg s2 (Int SP) = getReg s (Int SP).
Proof.
  intros Hv Hsp s1 s2.
  destruct (getReg s (Int SP)) as [| | | |sp|] eqn:Esp; try discriminate.
  apply isByte_Int in Hsp.
  assert (Top : read (ram s1) (getReg s1 (Int SP)) = getReg s r)
    by (apply push_top; assumption).
  assert (E2 : s2 = setReg (fst (_pop s1)) r (getReg s r)).
  { subst s2. unfold POP. unfold _pop at 1. rewrite Top. reflexivity. }
  rewrite E2. split.
  - apply getReg_setReg_same.
  - destruct (value_eq_dec (key (Int SP)) (key r)) as [K|K].
    + unfold getReg at 1. rewrite K.
      fold (getReg (setReg (fst (_pop s1)) r (getReg s r)) r).
      rewrite getReg_setReg_same.
      unfold getReg. rewrite <- K. exact Esp.
    + rewrite getReg_setReg_other by assumption.
      rewrite (pop_SP s1 ((sp - 1) mod 256)).
      * now rewrite dec_inc_byte.
      * subst s1. simpl fst. now apply push_SP.
Qed.

End Stack.

(** ** The cycle *)

Section Tick.

Context {mem : Memory}.

Lemma tick_found s h :
  bt_get branchTable (read (ram s) (PC s)) = Some h ->
  tick s =
  let s0 := set_IR s (read (ram s) (PC s)) in
  let r := h s0 (read (ram s) (jadd (PC s) (Int 1)))
               (read (ram s) (jadd (PC s) (Int 2))) in
  advance (fst r) (snd r).
Proof.
  intros H. unfold tick. simpl IR. rewrite H. simpl.
  now destruct (h _ _ _).
Qed.

Lemma tick_invalid s :
  bt_get branchTable (read (ram s) (PC s)) = None ->
  tick s =
  mkCPU (ram s) (reg s) (PC s) (read (ram s) (PC s)) (FL s) false
        (console s ++ [LogInvalid (read (ram s) (PC s))]).
Proof.
  intros H. unfold tick. simpl IR. now rewrite H.
Qed.

Lemma setFlag_PCIR s i b :
  PC (setFlag s i b) = PC s /\ IR (setFlag s i b) = IR s.
Proof. unfold setFlag. now destruct b. Qed.

Lemma alu_PCIR s op a b :
  PC (alu s op a b) = PC s /\ IR (alu s op a b) = IR s.
Proof.
  unfold alu.
  repeat match goal with
         | |- context [if String.eqb op ?o then _ else _] =>
             destruct (String.eqb op o); [now auto|]
         end.
  destruct (String.eqb op "CMP"); [cbv zeta | now auto].
  split.
  - now rewrite !(proj1 (setFlag_PCIR _ _ _)).
  - now rewrite !(proj2 (setFlag_PCIR _ _ _)).
Qed.

Lemma handlers_keep_PCIR :
  Forall (fun kh => keepsPCIR (snd kh)) branchTable.
Proof.
  unfold branchTable, setupBranchTable; simpl.
  repeat (apply Forall_cons; [simpl; intros s a b |]); try apply Forall_nil.
  all: try (split; reflexivity).
  all: try (unfold JEQ, JGT, JLT, JNE;
            match goal with
            | |- context [if ?c then _ else _] => destruct c
            end; split; reflexivity).
  all: try (unfold DIV, MOD;
            match goal with
            | |- context [strictEq ?x ?y] => destruct (strictEq x y)
            end; split; reflexivity).
  unfold CMP; simpl fst. apply alu_PCIR.
Qed.

Lemma bt_get_In bt v h :
  bt_get bt v = Some h -> exists op, key v = Int op /\ In (op, h) bt.
Proof.
  unfold bt_get. destruct (key v) as [| | | |z|]; try discriminate.
  destruct (find _ bt) as [[k h']|] eqn:F; [|discriminate].
  intros [= <-]. apply find_some in F. destruct F as [I E].
  simpl in E. apply Z.eqb_eq in E. subst k. now exists z.
Qed.

(** Every key of the branch table is a byte. *)
Lemma branchTable_bytes :
  Forall (fun kh : Z * handler => 0 <= fst kh < 256) branchTable.
Proof.
  unfold branchTable, setupBranchTable; simpl.
  repeat constructor; simpl; vm_compute; intuition discriminate.
Qed.

Lemma toInt32_key v op : key v = Int op -> toInt32 v = wrap32 op.
Proof.
  destruct v; simpl; try discriminate.
  - now intros [= <-].
  - now intros [= <-].
Qed.

(** The operand count decoded from a byte in IR. *)
Lemma operand_count v op :
  key v = Int op -> 0 <= op < 256 ->
  jand (jshr v (Int 6)) (Int 3) = Int (Z.land (Z.shiftr op 6) 3).
Proof.
  intros K B. unfold jand, jshr.
  rewrite (toInt32_key v op K).
  rewrite (wrap32_small op) by (simpl; lia).
  change (toInt32 (Int 6) mod 32) with 6.
  change (toInt32 (Int 3)) with 3.
  change (toInt32 (Int ?x)) with (wrap32 x).
  rewrite wrap32_small; [reflexivity|].
  rewrite Z.shiftr_div_pow2 by lia.
  assert (0 <= op / 2 ^ 6 < 4).
  { split; [apply Z.div_pos; lia | apply Z.div_lt_upper_bound; lia]. }
  simpl; lia.
Qed.

(** The program counter after a tick whose handler returns nothing. *)
Lemma tick_default_PC (s : cpu) (h : handler) (op : Z) :
  key (read (ram s) (PC s)) = Int op ->
  bt_get branchTable (read (ram s) (PC s)) = Some h ->
  snd (h (set_IR s (read (ram s) (PC s)))
         (read (ram s) (jadd (PC s) (Int 1)))
         (read (ram s) (jadd (PC s) (Int 2)))) = Undef ->
  PC (tick s) = jadd (PC s) (Int (1 + Z.land (Z.shiftr op 6) 3)).
Proof.
  intros K H U.
  rewrite (tick_found s h H). cbv zeta. rewrite U.
  destruct (bt_get_In _ _ _ H) as [op' [K' I]].
  assert (op' = op) by congruence. subst op'.
  pose proof (proj1 (Forall_forall _ _) branchTable_bytes _ I) as B.
  pose proof (proj1 (Forall_forall _ _) handlers_keep_PCIR _ I) as P.
  simpl in B, P.
  destruct (P (set_IR s (read (ram s) (PC s)))
              (read (ram s) (jadd (PC s) (Int 1)))
              (read (ram s) (jadd (PC s) (Int 2)))) as [P1 P2].
  simpl in P1, P2. unfold advance. simpl PC.
  rewrite P1, P2, (operand_count _ op K B), jadd_Int.
  now rewrite Z.add_comm.
Qed.

(** C5.  In a tick whose opcode [op] has a handler: if the handler returns
    an address, PC becomes that address; otherwise PC advances by
    [1 + operandCount], where [operandCount] is [(op >> 6) & 0b11] for the
    opcode fetched into IR at the start of the tick. *)
Theorem tick_advance (s : cpu) (h : handler) (op : Z) :
  key (read (ram s) (PC s)) = Int op ->
  bt_get branchTable (read (ram s) (PC s)) = Some h ->
  let r := h (set_IR s (read (ram s) (PC s)))
             (read (ram s) (jadd (PC s) (Int 1)))
             (read (ram s) (jadd (PC s) (Int 2))) in
  let operandCount := Z.land (Z.shiftr op 6) 3 in
  (snd r <> Undef -> PC (tick s) = snd r) /\
  (snd r = Undef ->
     PC (tick s) = jadd (PC s) (Int (1 + operandCount)) /\
     forall pc, PC s = Int pc -> PC (tick s) = Int (pc + (1 + operandCount))).
Proof.
  intros K H r operandCount. split.
  - intros NU. rewrite (tick_found s h H). cbv zeta. fold r.
    unfold advance. now destruct (snd r).
  - intros U.
    pose proof (tick_default_PC s h op K H U) as E.
    split; [exact E|].
    intros pc Hpc. rewrite E, Hpc. apply jadd_Int.
Qed.

(** C6.  A tick that fetches a value with no entry in the branch table logs
    the invalid-instruction text and stops the clock; PC keeps its value,
    and the registers, the flags and the memory are untouched. *)
Theorem tick_invalid_opcode (s : cpu) :
  bt_get branchTable (read (ram s) (PC s)) = None ->
  let s' := tick s in
  console s' = console s ++ [LogInvalid (read (ram s) (PC s))] /\
  clock s' = false /\
  PC s' = PC s /\
  reg s' = reg s /\ FL s' = FL s /\ ram s' = ram s /\
  IR s' = read (ram s) (PC s).
Proof.
  intros H s'. subst s'. rewrite (tick_invalid s H). simpl. tauto.
Qed.

Lemma pop_value s : snd (_pop s) = read (ram s) (getReg s (Int SP)).
Proof. reflexivity. Qed.

(** C4, amended.  A [CALL reg] at address [pc], with [reg] any register
    but the stack pointer and holding an address, leaves the return
    address [pc + 2] on top of the stack and sets PC to the address held
    in [reg]; a later [RET] that finds the stack pointer and the top of
    the stack as the [CALL] left them sets PC to [pc + 2]. *)
Theorem call_then_ret (s : cpu) (pc : Z) :
  PC s = Int pc ->
  0 <= pc -> pc + 2 < 256 ->
  read (ram s) (Int pc) = Int Op.CALL ->
  let r := read (ram s) (Int (pc + 1)) in
  key r <> Int SP ->
  getReg s r <> Undef ->
  let s1 := tick s in
  PC s1 = getReg s r /\
  read (ram s1) (getReg s1 (Int SP)) = Int (pc + 2) /\
  forall s2 : cpu,
    getReg s2 (Int SP) = getReg s1 (Int SP) ->
    read (ram s2) (getReg s2 (Int SP)) = read (ram s1) (getReg s1 (Int SP)) ->
    read (ram s2) (PC s2) = Int Op.RET ->
    PC (tick s2) = Int (pc + 2).
Proof.
  intros Hpc H0 H255 Hop r Hr Ht s1.
  assert (B : isByte (Int (pc + 2)) = true) by (apply isByte_Int; lia).
  assert (F : bt_get branchTable (read (ram s) (PC s)) = Some CALL)
    by (rewrite Hpc, Hop; reflexivity).
  assert (E1 : s1 =
               let p := _push (set_IR s (Int Op.CALL)) (Int (pc + 2)) in
               advance p (getReg p r)).
  { subst s1. rewrite (tick_found s CALL F). cbv zeta.
    rewrite Hpc, Hop, !jadd_Int. unfold CALL. cbv zeta. simpl fst; simpl snd.
    simpl PC. rewrite Hpc, jadd_Int. reflexivity. }
  cbv zeta in E1.
  set (p := _push (set_IR s (Int Op.CALL)) (Int (pc + 2))) in *.
  assert (G : getReg p r = getReg s r).
  { subst p. rewrite push_other; [reflexivity|]. exact Hr. }
  assert (E2 : s1 = set_PC p (getReg s r)).
  { rewrite E1, G. unfold advance. now destruct (getReg s r). }
  assert (Top : read (ram s1) (getReg s1 (Int SP)) = Int (pc + 2)).
  { rewrite E2. change (read (ram p) (getReg p (Int SP)) = Int (pc + 2)).
    subst p. now apply push_top. }
  split; [now rewrite E2 | split; [exact Top|]].
  intros s2 HSP HTop HRET.
  assert (F2 : bt_get branchTable (read (ram s2) (PC s2)) = Some RET)
    by (rewrite HRET; reflexivity).
  rewrite (tick_found s2 RET F2). cbv zeta. unfold RET.
  rewrite pop_value. change (getReg (set_IR s2 ?i) ?k) with (getReg s2 k).
  change (ram (set_IR s2 ?i)) with (ram s2).
  rewrite HTop, Top. reflexivity.
Qed.

(** C10.  On the default path the new PC is the integer [pc + 1 +
    operandCount], with no reduction modulo 256; and there is a program
    (a memory of [NOP]s) whose PC reaches 256 with the clock still
    running, so that the next fetch reads address 256. *)
Theorem default_advance_unbounded (s : cpu) (h : handler) (op pc : Z) :
  PC s = Int pc ->
  key (read (ram s) (PC s)) = Int op ->
  bt_get branchTable (read (ram s) (PC s)) = Some h ->
  snd (h (set_IR s (read (ram s) (PC s)))
         (read (ram s) (jadd (PC s) (Int 1)))
         (read (ram s) (jadd (PC s) (Int 2)))) = Undef ->
  PC (tick s) = Int (pc + 1 + Z.land (Z.shiftr op 6) 3) /\
  exists t : @cpu ram256,
    t = run 256 (boot []) /\
    clock t = true /\
    PC t = Int 256 /\
    IR (tick t) = @read ram256 (ram t) (Int 256).
Proof.
  intros Hpc K F U. split.
  - rewrite (tick_default_PC s h op K F U), Hpc, jadd_Int.
    f_equal. lia.
  - eexists. split; [reflexivity|].
    vm_compute. repeat split.
Qed.

End Tick.

(** ** Division by zero *)

Section DivisionByZero.

Context {mem : Memory}.

(** With a zero divisor the [DIV] and [MOD] handlers log and stop the
    clock, and then call the ALU as they do for any other divisor. *)
Lemma zero_divisor_falls_through (s : cpu) (regA regB : value) :
  strictEq (getReg s regB) (Int 0) = true ->
  let d := fst (DIV s regA regB) in
  let m := fst (MOD s regA regB) in
  console d = console s ++ [LogText "regB should not be zero"] /\
  clock d = false /\
  getReg d regA = jdiv (getReg s regA) (getReg s regB) /\
  console m = console s ++ [LogText "regB should not be zero"] /\
  clock m = false /\
  getReg m regA = jrem (getReg s regA) (getReg s regB).
Proof.
  intros Z0 d m. subst d m. unfold DIV, MOD. rewrite Z0. simpl fst.
  change (alu ?t "DIV" regA regB)
    with (setReg t regA (jdiv (getReg t regA) (getReg t regB))).
  change (alu ?t "MOD" regA regB)
    with (setReg t regA (jrem (getReg t regA) (getReg t regB))).
  rewrite !getReg_setReg_same. repeat split.
Qed.

End DivisionByZero.

(** C1.  The program [LDI R0,5; LDI R1,0; DIV R0,R1; PRN R0] logs the
    message and stops the clock at the [DIV], and [PRN] never runs; but
    the division is carried out all the same: R0, which held 5, holds
    Infinity afterwards (NaN with [MOD] in place of [DIV]). *)
Theorem div_by_zero_still_divides :
  let before := run 2 (boot divByZero) in
  let after := run 3 (boot divByZero) in
  getReg before (Int 0) = Int 5 /\
  getReg before (Int 1) = Int 0 /\
  clock before = true /\
  getReg after (Int 0) = Inf false /\
  clock after = false /\
  console after = [LogText "regB should not be zero"] /\
  PC after = Int 9 /\
  run 100 (boot divByZero) = after /\
  getReg (run 3 (boot modByZero)) (Int 0) = NaN.
Proof.
  vm_compute. repeat split.
Qed.

(** ** The theorems at concrete machines *)


Lemma push_pop_restores_witness :
  isByte (getReg (bootWith [] 42 0) (Int 0)) = true /\
  isByte (getReg (bootWith [] 42 0) (Int SP)) = true /\
  let s1 := fst (PUSH (bootWith [] 42 0) (Int 0) Undef) in
  let s2 := fst (POP s1 (Int 0) Undef) in
  getReg s2 (Int 0) = getReg (bootWith [] 42 0) (Int 0) /\
  getReg s2 (Int SP) = getReg (bootWith [] 42 0) (Int SP).
Proof.
  split; [reflexivity|]. split; [reflexivity|].
  apply (push_pop_restores (bootWith [] 42 0) (Int 0) Undef Undef);
    reflexivity.
Defined.

Lemma call_then_ret_witness :
  PC (bootWith [Op.CALL; 0] 16 0) = Int 0 /\
  read (ram (bootWith [Op.CALL; 0] 16 0)) (Int 0) = Int Op.CALL /\
  let s := bootWith [Op.CALL; 0] 16 0 in
  let s1 := tick s in
  PC s1 = Int 16 /\
  read (ram s1) (getReg s1 (Int SP)) = Int 2 /\
  forall s2 : cpu,
    getReg s2 (Int SP) = getReg s1 (Int SP) ->
    read (ram s2) (getReg s2 (Int SP)) = read (ram s1) (getReg s1 (Int SP)) ->
    read (ram s2) (PC s2) = Int Op.RET ->
    PC (tick s2) = Int 2.
Proof.
  split; [reflexivity|]. split; [reflexivity|].
  apply (call_then_ret (bootWith [Op.CALL; 0] 16 0) 0);
    [reflexivity | lia | lia | reflexivity | discriminate | discriminate].
Defined.

Lemma tick_advance_witness :
  bt_get branchTable (read (ram (boot [Op.LDI; 0; 5])) (Int 0)) = Some LDI /\
  PC (tick (boot [Op.LDI; 0; 5])) = Int (0 + (1 + Z.land (Z.shiftr Op.LDI 6) 3)).
Proof.
  split; [reflexivity|].
  refine (proj2 (proj2 (tick_advance (boot [Op.LDI; 0; 5]) LDI Op.LDI
                          eq_refl eq_refl) eq_refl) 0 eq_refl).
Defined.

Lemma tick_invalid_opcode_witness :
  bt_get branchTable (read (ram (boot [2])) (PC (boot [2]))) = None /\
  let s' := tick (boot [2]) in
  console s' = [LogInvalid (Int 2)] /\
  clock s' = false /\
  PC s' = Int 0.
Proof.
  split; [reflexivity|].
  destruct (tick_invalid_opcode (boot [2]) eq_refl) as [C [K [P _]]].
  exact (conj C (conj K P)).
Defined.

Lemma alu_arithmetic_wraps_witness :
  getReg (bootWith [] 200 100) (Int 0) = Int 200 /\
  getReg (bootWith [] 200 100) (Int 1) = Int 100 /\
  getReg (alu (bootWith [] 200 100) "ADD" (Int 0) (Int 1)) (Int 0)
    = Int ((200 + 100) mod 256) /\
  getReg (alu (bootWith [] 200 100) "MUL" (Int 0) (Int 1)) (Int 0)
    = Int ((200 * 100) mod 256).
Proof.
  split; [reflexivity|]. split; [reflexivity|].
  destruct (alu_arithmetic_wraps (bootWith [] 200 100) (Int 0) (Int 1) 200 100
              eq_refl eq_refl) as [A [_ [M _]]].
  exact (conj A M).
Defined.

Lemma alu_cmp_flags_witness :
  getReg (bootWith [] 3 9) (Int 0) = Int 3 /\
  getReg (bootWith [] 3 9) (Int 1) = Int 9 /\
  let s' := alu (bootWith [] 3 9) "CMP" (Int 0) (Int 1) in
  getFlag s' FL_EQ = Int 0 /\ getFlag s' FL_GT = Int 0 /\
  getFlag s' FL_LT = Int 1.
Proof.
  split; [reflexivity|]. split; [reflexivity|].
  destruct (alu_cmp_flags (bootWith [] 3 9) (Int 0) (Int 1) 3 9
              eq_refl eq_refl) as [E [G [L _]]].
  exact (conj E (conj G L)).
Defined.

Lemma alu_not_unmasked_witness :
  getReg (bootWith [] 5 0) (Int 0) = Int 5 /\
  0 <= 5 < 256 /\
  getReg (alu (bootWith [] 5 0) "NOT" (Int 0) Undef) (Int 0) = Int (Z.lnot 5).
Proof.
  split; [reflexivity|]. split; [lia|].
  refine (proj1 (alu_not_unmasked (bootWith [] 5 0) (Int 0) 5 eq_refl _)).
  lia.
Defined.

Lemma default_advance_unbounded_witness :
  PC (boot []) = Int 0 /\
  bt_get branchTable (read (ram (boot [])) (PC (boot []))) = Some NOP /\
  PC (tick (boot [])) = Int (0 + 1 + Z.land (Z.shiftr 0 6) 3).
Proof.
  split; [reflexivity|]. split; [reflexivity|].
  refine (proj1 (default_advance_unbounded (boot []) NOP 0 0
                   eq_refl eq_refl eq_refl eq_refl)).
Defined.

(** ** Where two claims fail as they are worded *)


(** [DIV] on the bytes 5 and 2 leaves 5/2, which is no byte: [NOT] is not
    the only ALU operation without a mask. *)
Lemma div_is_unmasked_too :
  ~ (forall op, In op otherOps -> @yieldsByte ram256 op).
Proof.
  intros H.
  assert (I : In "DIV"%string otherOps) by (simpl; tauto).
  specialize (H "DIV"%string I (bootWith [] 5 2) (Int 0) (Int 1)
                eq_refl eq_refl).
  vm_compute in H. discriminate.
Qed.

(** [CALL R7] at address 0: R7 holds 0xF4 before the instruction, and the
    jump goes to 0xF3, the stack pointer after the push. *)
Lemma call_through_stack_pointer :
  ~ (forall (s : @cpu ram256) (pc : Z),
       PC s = Int pc ->
       0 <= pc -> pc + 2 < 256 ->
       read (ram s) (Int pc) = Int Op.CALL ->
       getReg s (read (ram s) (Int (pc + 1))) <> Undef ->
       PC (tick s) = getReg s (read (ram s) (Int (pc + 1)))).
Proof.
  intros H.
  assert (N : getReg (boot [Op.CALL; 7]) (read (ram (boot [Op.CALL; 7])) (Int (0 + 1)))
              <> Undef) by (vm_compute; discriminate).
  specialize (H (boot [Op.CALL; 7]) 0 eq_refl).
  assert (L : 0 <= 0) by lia. assert (U : 0 + 2 < 256) by lia.
  specialize (H L U eq_refl N).
  vm_compute in H. discriminate.
Qed.

(** * Further properties of the code *)

(** ** Flags *)

Section MoreFlags.

Context {mem : Memory}.

(** X1.  Reading flag [j] after setting flag [i] to [b] gives [b] when
    [j] is [i] and the former value of flag [j] otherwise; a flag reads as
    0 or 1, whatever the flags register holds. *)
Theorem getFlag_setFlag (s : cpu) (i j : Z) (b : bool) :
  0 <= i < 31 -> 0 <= j < 31 ->
  getFlag (setFlag s i b) j =
    (if Z.eqb j i then Int (Z.b2z b) else getFlag s j) /\
  (getFlag s j = Int 0 \/ getFlag s j = Int 1).
Proof.
  intros Hi Hj. split.
  - rewrite !getFlag_testbit by assumption.
    rewrite testbit_setFlag by lia.
    now destruct (Z.eqb j i).
  - rewrite getFlag_testbit by assumption.
    destruct (Z.testbit (toInt32 (FL s)) j); auto.
Qed.

End MoreFlags.

(** ** More on the ALU *)

Section MoreALU.

Context {mem : Memory}.

Lemma byte_land_ones z : 0 <= z < 256 <-> Z.land z (Z.ones 8) = z.
Proof.
  rewrite Z.land_ones by lia. change (2 ^ 8) with 256. split.
  - intros H. now apply Z.mod_small.
  - intros H. rewrite <- H. apply Z.mod_pos_bound. lia.
Qed.

Lemma byte_land a b : 0 <= a < 256 -> 0 <= b < 256 -> 0 <= Z.land a b < 256.
Proof.
  intros Ha Hb. apply byte_land_ones. apply byte_land_ones in Ha.
  rewrite <- Z.land_assoc, (Z.land_comm b), Z.land_assoc. now rewrite Ha.
Qed.

Lemma byte_lor a b : 0 <= a < 256 -> 0 <= b < 256 -> 0 <= Z.lor a b < 256.
Proof.
  intros Ha Hb. apply byte_land_ones.
  apply byte_land_ones in Ha. apply byte_land_ones in Hb.
  now rewrite Z.land_lor_distr_l, Ha, Hb.
Qed.

Lemma byte_lxor a b : 0 <= a < 256 -> 0 <= b < 256 -> 0 <= Z.lxor a b < 256.
Proof.
  intros Ha Hb. apply byte_land_ones.
  apply byte_land_ones in Ha. apply byte_land_ones in Hb.
  rewrite <- Ha, <- Hb at 2. apply Z.bits_inj'. intros n Hn.
  rewrite !Z.land_spec, !Z.lxor_spec, !Z.land_spec.
  now destruct (Z.testbit a n), (Z.testbit b n), (Z.testbit (Z.ones 8) n).
Qed.

(** X2.  On registers holding bytes, [AND], [OR] and [XOR] store the
    bitwise and, or and exclusive or of the two bytes, which are bytes
    again, although these cases apply no mask. *)
Theorem alu_bitwise_bytes (s : cpu) (regA regB : value) (a b : Z) :
  getReg s regA = Int a -> getReg s regB = Int b ->
  0 <= a < 256 -> 0 <= b < 256 ->
  getReg (alu s "AND" regA regB) regA = Int (Z.land a b) /\
  getReg (alu s "OR" regA regB) regA = Int (Z.lor a b) /\
  getReg (alu s "XOR" regA regB) regA = Int (Z.lxor a b) /\
  0 <= Z.land a b < 256 /\ 0 <= Z.lor a b < 256 /\ 0 <= Z.lxor a b < 256.
Proof.
  intros HA HB Ha Hb.
  change (alu s "AND" regA regB)
    with (setReg s regA (jand (getReg s regA) (getReg s regB))).
  change (alu s "OR" regA regB)
    with (setReg s regA (jor (getReg s regA) (getReg s regB))).
  change (alu s "XOR" regA regB)
    with (setReg s regA (jxor (getReg s regA) (getReg s regB))).
  rewrite !getReg_setReg_same, HA, HB.
  unfold jand, jor, jxor; simpl.
  rewrite !(wrap32_small a), !(wrap32_small b) by (simpl; lia).
  repeat split; try (apply byte_land; assumption);
    try (apply byte_lor; assumption); try (apply byte_lxor; assumption).
Qed.

(** X3.  [ADD], [SUB], [MUL], [INC] and [DEC] leave a byte in the first
    operand register whatever the registers hold; when that register is
    missing or holds NaN they store 0. *)
Theorem alu_masked_total (s : cpu) (op : string) (regA regB : value) :
  In op maskedOps ->
  isByte (getReg (alu s op regA regB) regA) = true /\
  (isNaN (getReg s regA) = true -> getReg (alu s op regA regB) regA = Int 0).
Proof.
  intros Hop. split; [now apply alu_masked|].
  intros HN. unfold maskedOps in Hop; simpl in Hop.
  assert (NA : toNumber (getReg s regA) = NaN).
  { unfold isNaN in HN. now destruct (toNumber (getReg s regA)). }
  destruct Hop as [<-|[<-|[<-|[<-|[<-|[]]]]]];
    match goal with
    | |- context [alu s ?o regA regB] =>
        let t := eval cbv beta iota delta
                   [alu String.eqb Ascii.eqb Bool.eqb] in (alu s o regA regB) in
        change (alu s o regA regB) with t
    end;
    rewrite getReg_setReg_same, mask255.
  - unfold jadd. rewrite NA. reflexivity.
  - unfold jsub, jadd. rewrite NA. reflexivity.
  - unfold jmul. rewrite NA. reflexivity.
  - unfold jadd. rewrite NA. reflexivity.
  - unfold jsub, jadd. rewrite NA. reflexivity.
Qed.

Lemma eqb_false_of_notin op l o :
  ~ In op l -> In o l -> String.eqb op o = false.
Proof.
  intros N I. apply String.eqb_neq. intros ->. contradiction.
Qed.

(** X4.  An [op] that is none of the twelve case labels makes [alu]
    change nothing. *)
Theorem alu_unknown_op (s : cpu) (op : string) (regA regB : value) :
  ~ In op aluOps -> alu s op regA regB = s.
Proof.
  intros N. unfold alu.
  repeat match goal with
         | |- context [String.eqb op ?o] =>
             rewrite (eqb_false_of_notin op aluOps o N) by (simpl; tauto)
         end.
  reflexivity.
Qed.

Lemma alu_ADD s regA regB :
  alu s "ADD" regA regB =
  setReg s regA (jand (jadd (getReg s regA) (getReg s regB)) (Int 255)).
Proof. reflexivity. Qed.

Lemma alu_SUB s regA regB :
  alu s "SUB" regA regB =
  setReg s regA (jand (jsub (getReg s regA) (getReg s regB)) (Int 255)).
Proof. reflexivity. Qed.

Lemma alu_XOR s regA regB :
  alu s "XOR" regA regB = setReg s regA (jxor (getReg s regA) (getReg s regB)).
Proof. reflexivity. Qed.

Lemma alu_NOT s regA regB :
  alu s "NOT" regA regB = setReg s regA (jnot (getReg s regA)).
Proof. reflexivity. Qed.

(** X5.  On a byte in [regA]: [INC] and [DEC] undo each other, [ADD] and
    [SUB] of another register undo each other, and [XOR] with another
    register and [NOT] are their own inverses. *)
Theorem alu_inverses (s : cpu) (regA regB : value) (a b : Z) :
  getReg s regA = Int a ->
  getReg s regB = Int b ->
  0 <= a < 256 -> 0 <= b < 256 ->
  key regB <> key regA ->
  getReg (alu (alu s "INC" regA Undef) "DEC" regA Undef) regA = Int a /\
  getReg (alu (alu s "DEC" regA Undef) "INC" regA Undef) regA = Int a /\
  getReg (alu (alu s "ADD" regA regB) "SUB" regA regB) regA = Int a /\
  getReg (alu (alu s "SUB" regA regB) "ADD" regA regB) regA = Int a /\
  getReg (alu (alu s "XOR" regA regB) "XOR" regA regB) regA = Int a /\
  getReg (alu (alu s "NOT" regA Undef) "NOT" regA Undef) regA = Int a.
Proof.
  intros HA HB Ha Hb Hk.
  assert (M : a mod 256 = a) by (apply Z.mod_small; lia).
  repeat split.
  - rewrite alu_DEC, getReg_setReg_same, alu_INC, getReg_setReg_same, HA.
    rewrite jadd_Int, mask255_Int, jsub_Int, mask255_Int.
    rewrite Zminus_mod_idemp_l. f_equal. rewrite <- M at 2. f_equal. lia.
  - rewrite alu_INC, getReg_setReg_same, alu_DEC, getReg_setReg_same, HA.
    rewrite jsub_Int, mask255_Int, jadd_Int, mask255_Int.
    rewrite Zplus_mod_idemp_l. f_equal. rewrite <- M at 2. f_equal. lia.
  - rewrite alu_SUB, alu_ADD.
    rewrite getReg_setReg_same, getReg_setReg_same.
    rewrite getReg_setReg_other by assumption.
    rewrite HA, HB, jadd_Int, mask255_Int, jsub_Int, mask255_Int.
    rewrite Zminus_mod_idemp_l. f_equal. rewrite <- M at 2. f_equal. lia.
  - rewrite alu_ADD, alu_SUB.
    rewrite getReg_setReg_same, getReg_setReg_same.
    rewrite getReg_setReg_other by assumption.
    rewrite HA, HB, jsub_Int, mask255_Int, jadd_Int, mask255_Int.
    rewrite Zplus_mod_idemp_l. f_equal. rewrite <- M at 2. f_equal. lia.
  - rewrite !alu_XOR.
    rewrite getReg_setReg_same, getReg_setReg_same.
    rewrite getReg_setReg_other by assumption.
    rewrite HA, HB. unfold jxor; simpl.
    rewrite (wrap32_small a), (wrap32_small b) by (simpl; lia).
    pose proof (byte_lxor a b Ha Hb).
    rewrite wrap32_small by (simpl; lia).
    now rewrite Z.lxor_assoc, Z.lxor_nilpotent, Z.lxor_0_r.
  - rewrite !alu_NOT.
    rewrite getReg_setReg_same, getReg_setReg_same, HA. unfold jnot; simpl.
    rewrite (wrap32_small a) by (simpl; lia).
    pose proof (Z.add_lnot_diag a).
    rewrite wrap32_small by (simpl; lia).
    now rewrite Z.lnot_involutive.
Qed.

End MoreALU.

(** ** More on the stack and the memory *)

Section MoreStack.

Context {mem : Memory}.


Lemma pop_ram s : ram (fst (_pop s)) = ram s.
Proof. reflexivity. Qed.

Lemma push_ram s v :
  ram (_push s v) = write (ram s) (getReg (_push s v) (Int SP)) v.
Proof. reflexivity. Qed.

Lemma byte_pred_neq sp :
  0 <= sp < 256 -> (sp - 1) mod 256 <> sp.
Proof.
  intros H. destruct (Z.eq_dec sp 0) as [->|N].
  - discriminate.
  - rewrite Z.mod_small by lia. lia.
Qed.

(** X7.  Two bytes pushed one after the other are popped in the reverse
    order, and the stack pointer is back where it was, provided the cells
    of the memory are independent. *)
Theorem stack_is_lifo `{!MemoryFrame mem} (s : cpu) (v1 v2 : value) :
  isByte v1 = true -> isByte v2 = true ->
  isByte (getReg s (Int SP)) = true ->
  let s2 := _push (_push s v1) v2 in
  let s3 := fst (_pop s2) in
  let s4 := fst (_pop s3) in
  snd (_pop s2) = v2 /\ snd (_pop s3) = v1 /\
  getReg s4 (Int SP) = getReg s (Int SP).
Proof.
  intros H1 H2 Hsp s2 s3 s4.
  destruct (getReg s (Int SP)) as [| | | |sp|] eqn:Esp; try discriminate.
  apply isByte_Int in Hsp.
  set (s1 := _push s v1) in *.
  assert (SP1 : getReg s1 (Int SP) = Int ((sp - 1) mod 256))
    by (now apply push_SP).
  assert (B1 : 0 <= (sp - 1) mod 256 < 256) by (apply Z.mod_pos_bound; lia).
  assert (SP2 : getReg s2 (Int SP) = Int (((sp - 1) mod 256 - 1) mod 256))
    by (now apply push_SP).
  assert (SP3 : getReg s3 (Int SP) = Int ((sp - 1) mod 256)).
  { subst s3. rewrite (pop_SP s2 _ SP2). now rewrite dec_inc_byte. }
  assert (SP4 : getReg s4 (Int SP) = Int sp).
  { subst s4. rewrite (pop_SP s3 _ SP3). now rewrite dec_inc_byte. }
  repeat split.
  - rewrite pop_value. subst s2. now apply push_top.
  - rewrite pop_value. subst s3. rewrite pop_ram, SP3.
    subst s2. rewrite push_ram, SP2.
    rewrite read_write_other.
    + rewrite <- SP1. subst s1. now apply push_top.
    + apply isByte_Int. apply Z.mod_pos_bound. lia.
    + now apply isByte_Int.
    + intros [= E]. now apply (byte_pred_neq ((sp - 1) mod 256)).
  - exact SP4.
Qed.

(** X8.  [ST regA,regB] followed by [LD regC,regA] loads into [regC] the
    byte that [regB] held; [ST] assigns no register. *)
Theorem store_then_load (s : cpu) (regA regB regC : value) :
  isByte (getReg s regA) = true ->
  isByte (getReg s regB) = true ->
  let s1 := fst (ST s regA regB) in
  reg s1 = reg s /\
  getReg (fst (LD s1 regC regA)) regC = getReg s regB.
Proof.
  intros HA HB s1. split; [reflexivity|].
  subst s1. unfold LD, ST. simpl fst.
  rewrite getReg_setReg_same. simpl ram.
  change (reg s (key regA)) with (getReg s regA).
  now apply read_write.
Qed.

End MoreStack.

(** ** More on the handlers and the cycle *)

Section Footprint.

Context {mem : Memory}.

Ltac footprint_case H :=
  first
    [ reflexivity
    | solve [exfalso; apply H; repeat (first [left; reflexivity | right])]
    | solve [exfalso; vm_compute in H; intuition discriminate] ].

(** X9.  What each handler of the branch table can touch: the memory is
    written only by [ST], [PUSH] and [CALL]; the console only by [PRN],
    [DIV] and [MOD]; the clock only by [HLT], [DIV] and [MOD]; the flags
    only by [CMP]; and [HLT], [PRN], [ST], [NOP], [CMP] and the jumps
    assign no register. *)
Theorem handler_footprint :
  Forall
    (fun kh : Z * handler =>
       forall s a b,
         let s' := fst (snd kh s a b) in
         (~ In (fst kh) memoryWriters -> ram s' = ram s) /\
         (~ In (fst kh) printers -> console s' = console s) /\
         (~ In (fst kh) stoppers -> clock s' = clock s) /\
         (~ In (fst kh) flagSetters -> FL s' = FL s) /\
         (In (fst kh) registerKeepers -> reg s' = reg s))
    branchTable.
Proof.
  unfold branchTable, setupBranchTable; simpl.
  repeat (apply Forall_cons; [simpl; intros s a b |]); try apply Forall_nil.
  all: try (repeat split; intros H; footprint_case H).
  all: try (unfold JEQ, JGT, JLT, JNE;
            match goal with
            | |- context [if ?c then _ else _] => destruct c
            end; repeat split; intros H; footprint_case H).
  all: try (unfold DIV, MOD;
            match goal with
            | |- context [strictEq ?x ?y] => destruct (strictEq x y)
            end; repeat split; intros H; footprint_case H).
  unfold CMP; simpl fst. rewrite alu_CMP.
  repeat split; intros H; try footprint_case H;
    now repeat (etransitivity; [apply setFlag_frame|]).
Qed.

Lemma advance_IR s v : IR (advance s v) = IR s.
Proof. unfold advance. now destruct v. Qed.

(** X10.  After any tick, IR holds the value fetched at the PC the tick
    started from. *)
Theorem tick_loads_IR (s : cpu) : IR (tick s) = read (ram s) (PC s).
Proof.
  destruct (bt_get branchTable (read (ram s) (PC s))) as [h|] eqn:F.
  - rewrite (tick_found s h F). cbv zeta. rewrite advance_IR.
    destruct (bt_get_In _ _ _ F) as [op [_ I]].
    pose proof (proj1 (Forall_forall _ _) handlers_keep_PCIR _ I) as P.
    simpl in P. now rewrite (proj2 (P _ _ _)).
  - now rewrite (tick_invalid s F).
Qed.

(** X11.  A handler whose opcode encodes at most one operand gives the
    same result whatever the second fetched operand is, and one whose
    opcode encodes none whatever both are. *)
Theorem unused_operands_ignored :
  Forall
    (fun kh : Z * handler =>
       forall s a b a' b',
         (Z.land (Z.shiftr (fst kh) 6) 3 <= 1 ->
          snd kh s a b = snd kh s a b') /\
         (Z.land (Z.shiftr (fst kh) 6) 3 = 0 ->
          snd kh s a b = snd kh s a' b'))
    branchTable.
Proof.
  unfold branchTable, setupBranchTable; simpl.
  repeat (apply Forall_cons; [simpl; intros s a b a' b' |]);
    try apply Forall_nil.
  all: split; intros H;
    first [ reflexivity | exfalso; vm_compute in H; now auto ].
Qed.

(** X12.  A fetch that yields anything but a byte ([undefined], a
    fraction, a negative or too large number) is an invalid instruction:
    the tick logs it, stops the clock and leaves PC alone. *)
Theorem tick_non_byte_halts (s : cpu) :
  isByte (key (read (ram s) (PC s))) = false ->
  clock (tick s) = false /\
  PC (tick s) = PC s /\
  console (tick s) = console s ++ [LogInvalid (read (ram s) (PC s))].
Proof.
  intros NB.
  destruct (bt_get branchTable (read (ram s) (PC s))) as [h|] eqn:F.
  - exfalso. destruct (bt_get_In _ _ _ F) as [op [K I]].
    pose proof (proj1 (Forall_forall _ _) branchTable_bytes _ I) as B.
    simpl in B. rewrite K in NB. apply isByte_Int in B. congruence.
  - rewrite (tick_invalid s F). simpl. tauto.
Qed.

(** A stopped clock makes [run] return at once. *)
Lemma run_stopped n s : clock s = false -> run n s = s.
Proof. intros H. destruct n; simpl; [reflexivity | now rewrite H]. Qed.

(** X13.  A tick at [HLT] stops the clock and still moves PC past the
    [HLT] byte; nothing else changes but IR. *)
Theorem tick_HLT (s : cpu) (pc : Z) :
  PC s = Int pc ->
  read (ram s) (Int pc) = Int Op.HLT ->
  tick s =
  mkCPU (ram s) (reg s) (Int (pc + 1)) (Int Op.HLT) (FL s) false (console s).
Proof.
  intros Hpc Hop.
  assert (F : bt_get branchTable (read (ram s) (PC s)) = Some HLT)
    by (rewrite Hpc, Hop; reflexivity).
  rewrite (tick_found s HLT F). cbv zeta. unfold HLT, advance. simpl.
  rewrite Hpc, Hop. simpl. unfold set_PC; simpl. f_equal.
  change (jadd (Int pc) (jadd (jand (jshr (Int Op.HLT) (Int 6)) (Int 3)) (Int 1)))
    with (jadd (Int pc) (Int 1)).
  apply jadd_Int.
Qed.

Lemma advance_target s t :
  advance s t = set_PC s (match t with
                          | Undef =>
                              jadd (PC s)
                                (jadd (jand (jshr (IR s) (Int 6)) (Int 3)) (Int 1))
                          | _ => t
                          end).
Proof. now destruct t. Qed.

(** The state after a tick at a jump. *)
Lemma tick_jump_state (s : cpu) (pc j : Z) :
  In j (Op.JMP :: condJumps) ->
  PC s = Int pc ->
  read (ram s) (Int pc) = Int j ->
  let t := getReg s (read (ram s) (Int (pc + 1))) in
  PC (tick s) =
    (if jumpEnabled s j
     then match t with Undef => Int (pc + 2) | _ => t end
     else Int (pc + 2)) /\
  ram (tick s) = ram s /\ reg (tick s) = reg s /\ FL (tick s) = FL s /\
  clock (tick s) = clock s /\ console (tick s) = console s.
Proof.
  intros Hj Hpc Hop t.
  assert (D : jadd (Int pc) (jadd (jand (jshr (Int j) (Int 6)) (Int 3)) (Int 1))
              = Int (pc + 2)).
  { simpl in Hj. 
    destruct Hj as [<-|[<-|[<-|[<-|[<-|[]]]]]];
      (change (jadd (jand (jshr (Int _) (Int 6)) (Int 3)) (Int 1)) with (Int 2);
       apply jadd_Int). }
  simpl in Hj.
  destruct Hj as [<-|[<-|[<-|[<-|[<-|[]]]]]].
  - assert (F : bt_get branchTable (read (ram s) (PC s)) = Some JMP)
      by (rewrite Hpc, Hop; reflexivity).
    rewrite (tick_found s JMP F). cbv zeta. unfold JMP. simpl fst; simpl snd.
    rewrite Hpc, jadd_Int, Hop, advance_target. simpl.
    rewrite Hpc, D. fold t. change (jumpEnabled s Op.JMP) with true.
    cbv iota. repeat split; try now destruct t.
  - assert (F : bt_get branchTable (read (ram s) (PC s)) = Some JEQ)
      by (rewrite Hpc, Hop; reflexivity).
    rewrite (tick_found s JEQ F). cbv zeta. unfold JEQ.
    rewrite Hpc, jadd_Int, Hop.
    change (jumpEnabled s Op.JEQ) with (truthy (getFlag s FL_EQ)).
    change (getFlag (set_IR s (Int Op.JEQ)) FL_EQ) with (getFlag s FL_EQ).
    destruct (truthy (getFlag s FL_EQ)); simpl fst; simpl snd;
      rewrite advance_target; simpl; rewrite Hpc, D; fold t;
      repeat split; try now destruct t.
  - assert (F : bt_get branchTable (read (ram s) (PC s)) = Some JGT)
      by (rewrite Hpc, Hop; reflexivity).
    rewrite (tick_found s JGT F). cbv zeta. unfold JGT.
    rewrite Hpc, jadd_Int, Hop.
    change (jumpEnabled s Op.JGT) with (truthy (getFlag s FL_GT)).
    change (getFlag (set_IR s (Int Op.JGT)) FL_GT) with (getFlag s FL_GT).
    destruct (truthy (getFlag s FL_GT)); simpl fst; simpl snd;
      rewrite advance_target; simpl; rewrite Hpc, D; fold t;
      repeat split; try now destruct t.
  - assert (F : bt_get branchTable (read (ram s) (PC s)) = Some JLT)
      by (rewrite Hpc, Hop; reflexivity).
    rewrite (tick_found s JLT F). cbv zeta. unfold JLT.
    rewrite Hpc, jadd_Int, Hop.
    change (jumpEnabled s Op.JLT) with (truthy (getFlag s FL_LT)).
    change (getFlag (set_IR s (Int Op.JLT)) FL_LT) with (getFlag s FL_LT).
    destruct (truthy (getFlag s FL_LT)); simpl fst; simpl snd;
      rewrite advance_target; simpl; rewrite Hpc, D; fold t;
      repeat split; try now destruct t.
  - assert (F : bt_get branchTable (read (ram s) (PC s)) = Some JNE)
      by (rewrite Hpc, Hop; reflexivity).
    rewrite (tick_found s JNE F). cbv zeta. unfold JNE.
    rewrite Hpc, jadd_Int, Hop.
    change (jumpEnabled s Op.JNE) with (negb (truthy (getFlag s FL_EQ))).
    change (getFlag (set_IR s (Int Op.JNE)) FL_EQ) with (getFlag s FL_EQ).
    destruct (negb (truthy (getFlag s FL_EQ))); simpl fst; simpl snd;
      rewrite advance_target; simpl; rewrite Hpc, D; fold t;
      repeat split; try now destruct t.
Qed.

(** X14.  A tick at [JMP], [JEQ], [JGT], [JLT] or [JNE] sets PC to the
    value of the named register when the flags allow the jump and that
    register holds a value; otherwise (the flags forbid it, or the
    register is missing) PC moves on by 2.  Memory, registers, flags,
    clock and console are untouched. *)
Theorem tick_jump (s : cpu) (pc j : Z) :
  In j (Op.JMP :: condJumps) ->
  PC s = Int pc ->
  read (ram s) (Int pc) = Int j ->
  let t := getReg s (read (ram s) (Int (pc + 1))) in
  PC (tick s) =
    (if jumpEnabled s j
     then match t with Undef => Int (pc + 2) | _ => t end
     else Int (pc + 2)) /\
  ram (tick s) = ram s /\ reg (tick s) = reg s /\ FL (tick s) = FL s /\
  clock (tick s) = clock s /\ console (tick s) = console s.
Proof.
  intros Hj Hpc Hop. now apply tick_jump_state.
Qed.

Lemma getFlag_FL s t i : FL s = FL t -> getFlag s i = getFlag t i.
Proof. unfold getFlag. now intros ->. Qed.

(** The flags [CMP] leaves for two integers. *)
Lemma cmp_getFlag s regA regB a b :
  getReg s regA = Int a -> getReg s regB = Int b ->
  let s' := alu s "CMP" regA regB in
  getFlag s' FL_EQ = Int (Z.b2z (a =? b)) /\
  getFlag s' FL_GT = Int (Z.b2z (b <? a)) /\
  getFlag s' FL_LT = Int (Z.b2z (a <? b)).
Proof.
  intros Ha Hb s'. subst s'. rewrite alu_CMP, Ha, Hb.
  unfold jgt. rewrite strictEq_Int, !jlt_Int.
  rewrite !getFlag_testbit by (unfold FL_EQ, FL_GT, FL_LT; lia).
  rewrite !testbit_setFlag by (unfold FL_EQ, FL_GT, FL_LT; lia).
  simpl Z.eqb. cbv iota. repeat split.
Qed.

Lemma truthy_b2z c : truthy (Int (Z.b2z c)) = c.
Proof. now destruct c. Qed.

(** The state after a tick that executes [CMP]. *)
Lemma tick_CMP s pc regA regB :
  PC s = Int pc ->
  read (ram s) (Int pc) = Int Op.CMP ->
  read (ram s) (Int (pc + 1)) = regA ->
  read (ram s) (Int (pc + 2)) = regB ->
  tick s = set_PC (alu (set_IR s (Int Op.CMP)) "CMP" regA regB) (Int (pc + 3)).
Proof.
  intros Hpc Hop HA HB.
  assert (F : bt_get branchTable (read (ram s) (PC s)) = Some CMP)
    by (rewrite Hpc, Hop; reflexivity).
  rewrite (tick_found s CMP F). cbv zeta. unfold CMP.
  rewrite Hpc, !jadd_Int, Hop, HA, HB. simpl fst; simpl snd.
  unfold advance. f_equal.
  destruct (alu_PCIR (set_IR s (Int Op.CMP)) "CMP" regA regB) as [P I].
  rewrite P, I. simpl. rewrite Hpc.
  change (jadd (jand (jshr (Int Op.CMP) (Int 6)) (Int 3)) (Int 1)) with (Int 3).
  apply jadd_Int.
Qed.

(** X15.  [CMP regA,regB] followed by a conditional jump through [r]:
    with integers [a] and [b] in the two registers and a value in [r],
    after the two ticks PC is the value of [r] when the comparison
    satisfies the jump ([JEQ]: [a = b], [JNE]: [a <> b], [JGT]: [a > b],
    [JLT]: [a < b]) and the address after the jump otherwise. *)
Theorem cmp_then_jump (s : cpu) (pc j a b : Z) :
  In j condJumps ->
  PC s = Int pc ->
  read (ram s) (Int pc) = Int Op.CMP ->
  read (ram s) (Int (pc + 3)) = Int j ->
  let regA := read (ram s) (Int (pc + 1)) in
  let regB := read (ram s) (Int (pc + 2)) in
  let r := read (ram s) (Int (pc + 4)) in
  getReg s regA = Int a ->
  getReg s regB = Int b ->
  getReg s r <> Undef ->
  PC (tick (tick s)) = if jumpTaken j a b then getReg s r else Int (pc + 5).
Proof.
  intros Hj Hpc Hcmp Hjmp regA regB r HA HB Ht.
  pose proof (tick_CMP s pc regA regB Hpc Hcmp eq_refl eq_refl) as E.
  set (s0 := set_IR s (Int Op.CMP)) in E.
  destruct (cmp_getFlag s0 regA regB a b HA HB) as [FE [FG FL']].
  cbv zeta in FE, FG, FL'.
  assert (R : ram (tick s) = ram s /\ reg (tick s) = reg s).
  { rewrite E. rewrite alu_CMP. simpl ram; simpl reg.
    split; now repeat (etransitivity; [apply setFlag_frame|]). }
  destruct R as [Rm Rr].
  assert (J : In j (Op.JMP :: condJumps)) by now right.
  assert (P1 : PC (tick s) = Int (pc + 3)) by now rewrite E.
  assert (O1 : read (ram (tick s)) (Int (pc + 3)) = Int j) by now rewrite Rm.
  assert (GR : getReg (tick s) r = getReg s r)
    by (unfold getReg; now rewrite Rr).
  destruct (tick_jump_state (tick s) (pc + 3) j J P1 O1) as [P2 _].
  cbv zeta in P2.
  replace (pc + 3 + 2) with (pc + 5) in P2 by lia.
  replace (pc + 3 + 1) with (pc + 4) in P2 by lia.
  rewrite Rm in P2. fold r in P2. rewrite GR in P2.
  rewrite P2. clear P2.
  assert (G : forall i, getFlag (tick s) i = getFlag (alu s0 "CMP" regA regB) i).
  { intros i. apply getFlag_FL. now rewrite E. }
  assert (T : (if jumpEnabled (tick s) j
               then getReg s r else Int (pc + 5))
              = if jumpTaken j a b then getReg s r else Int (pc + 5)).
  { unfold condJumps in Hj; simpl in Hj.
    destruct Hj as [<-|[<-|[<-|[<-|[]]]]].
    - change (jumpEnabled (tick s) Op.JEQ) with (truthy (getFlag (tick s) FL_EQ)).
      change (jumpTaken Op.JEQ a b) with (a =? b).
      now rewrite G, FE, truthy_b2z.
    - change (jumpEnabled (tick s) Op.JGT) with (truthy (getFlag (tick s) FL_GT)).
      change (jumpTaken Op.JGT a b) with (b <? a).
      now rewrite G, FG, truthy_b2z.
    - change (jumpEnabled (tick s) Op.JLT) with (truthy (getFlag (tick s) FL_LT)).
      change (jumpTaken Op.JLT a b) with (a <? b).
      now rewrite G, FL', truthy_b2z.
    - change (jumpEnabled (tick s) Op.JNE)
        with (negb (truthy (getFlag (tick s) FL_EQ))).
      change (jumpTaken Op.JNE a b) with (negb (a =? b)).
      now rewrite G, FE, truthy_b2z. }
  rewrite <- T. destruct (jumpEnabled (tick s) j); [|reflexivity].
  destruct (getReg s r); try reflexivity. now elim Ht.
Qed.

(** X16.  [LDI r,v] followed by [PRN r] prints [v]: after the two ticks
    the console has one more line, the immediate operand, the register
    holds it and PC is 5 further. *)
Theorem ldi_then_prn (s : cpu) (pc : Z) :
  PC s = Int pc ->
  read (ram s) (Int pc) = Int Op.LDI ->
  read (ram s) (Int (pc + 3)) = Int Op.PRN ->
  read (ram s) (Int (pc + 4)) = read (ram s) (Int (pc + 1)) ->
  let r := read (ram s) (Int (pc + 1)) in
  let v := read (ram s) (Int (pc + 2)) in
  let s2 := tick (tick s) in
  console s2 = console s ++ [LogValue v] /\
  getReg s2 r = v /\
  PC s2 = Int (pc + 5) /\
  clock s2 = clock s.
Proof.
  intros Hpc Hldi Hprn Hsame r v s2.
  assert (F : bt_get branchTable (read (ram s) (PC s)) = Some LDI)
    by (rewrite Hpc, Hldi; reflexivity).
  assert (E : tick s = set_PC (setReg (set_IR s (Int Op.LDI)) r v) (Int (pc + 3))).
  { rewrite (tick_found s LDI F). cbv zeta. unfold LDI.
    rewrite Hpc, !jadd_Int, Hldi. simpl fst; simpl snd.
    unfold advance. f_equal. simpl. rewrite Hpc.
    change (jadd (jand (jshr (Int Op.LDI) (Int 6)) (Int 3)) (Int 1)) with (Int 3).
    apply jadd_Int. }
  set (s1 := tick s) in *.
  assert (P1 : PC s1 = Int (pc + 3)) by now rewrite E.
  assert (M1 : ram s1 = ram s) by now rewrite E.
  assert (F1 : bt_get branchTable (read (ram s1) (PC s1)) = Some PRN)
    by (rewrite P1, M1, Hprn; reflexivity).
  assert (E2 : s2 = set_PC (log (set_IR s1 (Int Op.PRN))
                              (LogValue (getReg s1 r))) (Int (pc + 5))).
  { subst s2. rewrite (tick_found s1 PRN F1). cbv zeta. unfold PRN.
    rewrite P1, M1, !jadd_Int, Hprn.
    replace (pc + 3 + 1) with (pc + 4) by lia. rewrite Hsame. fold r.
    simpl fst; simpl snd. rewrite advance_target. f_equal.
    simpl. rewrite P1.
    change (jadd (jand (jshr (Int Op.PRN) (Int 6)) (Int 3)) (Int 1)) with (Int 2).
    rewrite jadd_Int. f_equal. lia. }
  assert (R : getReg s1 r = v).
  { rewrite E. change (getReg (set_PC ?x ?p) r) with (getReg x r).
    apply getReg_setReg_same. }
  rewrite E2. simpl console. simpl PC. 
  change (getReg (set_PC ?x ?p) r) with (getReg x r).
  change (getReg (log ?x ?l) r) with (getReg x r).
  change (getReg (set_IR ?x ?i) r) with (getReg x r).
  rewrite R. repeat split.
  - now rewrite E.
  - now rewrite E.
Qed.

(** A tick at an opcode of the branch table. *)
Lemma tick_exec s pc op h :
  PC s = Int pc ->
  read (ram s) (Int pc) = Int op ->
  bt_get branchTable (Int op) = Some h ->
  tick s =
  advance (fst (h (set_IR s (Int op)) (read (ram s) (Int (pc + 1)))
                  (read (ram s) (Int (pc + 2)))))
          (snd (h (set_IR s (Int op)) (read (ram s) (Int (pc + 1)))
                  (read (ram s) (Int (pc + 2))))).
Proof.
  intros Hpc Hop F.
  assert (F' : bt_get branchTable (read (ram s) (PC s)) = Some h)
    by now rewrite Hpc, Hop.
  rewrite (tick_found s h F'). cbv zeta.
  now rewrite Hpc, !jadd_Int, Hop.
Qed.

Lemma programAt_read s pc prog (i : nat) z :
  programAt s pc prog -> (i < List.length prog)%nat -> nth i prog 0 = z ->
  forall a, a = pc + Z.of_nat i -> read (ram s) (Int a) = Int z.
Proof. intros P L <- a ->. now apply P. Qed.

Lemma run_app n m s : run (n + m) s = run m (run n s).
Proof.
  revert s. induction n as [|n IH]; intros s; simpl.
  - reflexivity.
  - destruct (clock s) eqn:C; [apply IH|].
    symmetry. now apply run_stopped.
Qed.

(** X17.  Wherever the program [LDI R0,a; LDI R1,b; MUL R0,R1; PRN R0; HLT]
    sits in the memory, a running CPU whose PC points at it prints
    [(a * b) mod 256] and stops after five ticks with PC past the [HLT];
    the memory is unchanged and more ticks of the timer change nothing. *)
Theorem mul_program (s : cpu) (pc a b : Z) :
  programAt s pc (mulProgram a b) ->
  PC s = Int pc ->
  clock s = true ->
  let s' := run 5 s in
  console s' = console s ++ [LogValue (Int ((a * b) mod 256))] /\
  PC s' = Int (pc + 12) /\
  clock s' = false /\
  ram s' = ram s /\
  forall n, run (5 + n) s = s'.
Proof.
  intros P Hpc Hc s'.
  assert (R : forall (i : nat) z, (i < 12)%nat -> nth i (mulProgram a b) 0 = z ->
              forall x, x = pc + Z.of_nat i -> read (ram s) (Int x) = Int z).
  { intros i z L N x X. exact (programAt_read s pc _ i z P L N x X). }
  (* LDI R0,a *)
  assert (E1 : tick s =
               set_PC (setReg (set_IR s (Int Op.LDI)) (Int 0) (Int a)) (Int (pc + 3))).
  { rewrite (tick_exec s pc Op.LDI LDI Hpc (R 0%nat Op.LDI ltac:(lia) eq_refl pc ltac:(lia)) eq_refl).
    unfold LDI. cbn [fst snd].
    rewrite (R 1%nat 0 ltac:(lia) eq_refl (pc + 1) ltac:(lia)).
    rewrite (R 2%nat a ltac:(lia) eq_refl (pc + 2) ltac:(lia)).
    rewrite advance_target. f_equal. simpl. rewrite Hpc.
    change (jadd (jand (jshr (Int Op.LDI) (Int 6)) (Int 3)) (Int 1)) with (Int 3).
    apply jadd_Int. }
  set (s1 := tick s) in *.
  assert (M1 : ram s1 = ram s) by now rewrite E1.
  assert (P1 : PC s1 = Int (pc + 3)) by now rewrite E1.
  (* LDI R1,b *)
  assert (E2 : tick s1 =
               set_PC (setReg (set_IR s1 (Int Op.LDI)) (Int 1) (Int b)) (Int (pc + 6))).
  { rewrite (tick_exec s1 (pc + 3) Op.LDI LDI P1); [| rewrite M1; apply (R 3%nat); [lia|reflexivity|lia] | reflexivity].
    unfold LDI. cbn [fst snd]. rewrite M1.
    rewrite (R 4%nat 1 ltac:(lia) eq_refl (pc + 3 + 1) ltac:(lia)).
    rewrite (R 5%nat b ltac:(lia) eq_refl (pc + 3 + 2) ltac:(lia)).
    rewrite advance_target. f_equal. simpl. rewrite P1.
    change (jadd (jand (jshr (Int Op.LDI) (Int 6)) (Int 3)) (Int 1)) with (Int 3).
    rewrite jadd_Int. f_equal. lia. }
  set (s2 := tick s1) in *.
  assert (M2 : ram s2 = ram s) by now rewrite E2.
  assert (P2 : PC s2 = Int (pc + 6)) by now rewrite E2.
  assert (A2 : getReg s2 (Int 0) = Int a).
  { rewrite E2. change (getReg (set_PC ?x ?p) ?k) with (getReg x k).
    rewrite getReg_setReg_other by discriminate.
    change (getReg (set_IR ?x ?p) ?k) with (getReg x k).
    rewrite E1. change (getReg (set_PC ?x ?p) ?k) with (getReg x k).
    apply getReg_setReg_same. }
  assert (B2 : getReg s2 (Int 1) = Int b).
  { rewrite E2. change (getReg (set_PC ?x ?p) ?k) with (getReg x k).
    apply getReg_setReg_same. }
  (* MUL R0,R1 *)
  assert (E3 : tick s2 =
               set_PC (setReg (set_IR s2 (Int Op.MUL)) (Int 0)
                         (jand (jmul (Int a) (Int b)) (Int 255))) (Int (pc + 9))).
  { rewrite (tick_exec s2 (pc + 6) Op.MUL MUL P2); [| rewrite M2; apply (R 6%nat); [lia|reflexivity|lia] | reflexivity].
    unfold MUL. cbn [fst snd]. rewrite M2.
    rewrite (R 7%nat 0 ltac:(lia) eq_refl (pc + 6 + 1) ltac:(lia)).
    rewrite (R 8%nat 1 ltac:(lia) eq_refl (pc + 6 + 2) ltac:(lia)).
    change (alu ?t "MUL" (Int 0) (Int 1))
      with (setReg t (Int 0) (jand (jmul (getReg t (Int 0)) (getReg t (Int 1))) (Int 255))).
    change (getReg (set_IR s2 ?p) ?k) with (getReg s2 k).
    rewrite A2, B2.
    rewrite advance_target. f_equal. simpl. rewrite P2.
    change (jadd (jand (jshr (Int Op.MUL) (Int 6)) (Int 3)) (Int 1)) with (Int 3).
    rewrite jadd_Int. f_equal. lia. }
  set (s3 := tick s2) in *.
  assert (M3 : ram s3 = ram s) by now rewrite E3.
  assert (P3 : PC s3 = Int (pc + 9)) by now rewrite E3.
  assert (A3 : getReg s3 (Int 0) = Int (toInt32 (jmul (Int a) (Int b)) mod 256)).
  { rewrite E3. change (getReg (set_PC ?x ?p) ?k) with (getReg x k).
    rewrite getReg_setReg_same. apply mask255. }
  (* PRN R0 *)
  assert (E4 : tick s3 =
               set_PC (log (set_IR s3 (Int Op.PRN))
                         (LogValue (Int (toInt32 (jmul (Int a) (Int b)) mod 256))))
                      (Int (pc + 11))).
  { rewrite (tick_exec s3 (pc + 9) Op.PRN PRN P3); [| rewrite M3; apply (R 9%nat); [lia|reflexivity|lia] | reflexivity].
    unfold PRN. cbn [fst snd]. rewrite M3.
    rewrite (R 10%nat 0 ltac:(lia) eq_refl (pc + 9 + 1) ltac:(lia)).
    change (getReg (set_IR s3 ?p) ?k) with (getReg s3 k).
    rewrite A3.
    rewrite advance_target. f_equal. simpl. rewrite P3.
    change (jadd (jand (jshr (Int Op.PRN) (Int 6)) (Int 3)) (Int 1)) with (Int 2).
    rewrite jadd_Int. f_equal. lia. }
  set (s4 := tick s3) in *.
  assert (M4 : ram s4 = ram s) by now rewrite E4.
  assert (P4 : PC s4 = Int (pc + 11)) by now rewrite E4.
  (* HLT *)
  assert (E5 : tick s4 =
               set_PC (stopClock (set_IR s4 (Int Op.HLT))) (Int (pc + 12))).
  { rewrite (tick_exec s4 (pc + 11) Op.HLT HLT P4); [| rewrite M4; apply (R 11%nat); [lia|reflexivity|lia] | reflexivity].
    unfold HLT. cbn [fst snd].
    rewrite advance_target. f_equal. simpl. rewrite P4.
    change (jadd (jand (jshr (Int Op.HLT) (Int 6)) (Int 3)) (Int 1)) with (Int 1).
    rewrite jadd_Int. f_equal. lia. }
  assert (C1 : clock s1 = true) by (rewrite E1; exact Hc).
  assert (C2 : clock s2 = true) by (rewrite E2; exact C1).
  assert (C3 : clock s3 = true) by (rewrite E3; exact C2).
  assert (C4 : clock s4 = true) by (rewrite E4; exact C3).
  assert (S : s' = tick s4).
  { subst s'. simpl. rewrite Hc. fold s1. rewrite C1. fold s2. rewrite C2.
    fold s3. rewrite C3. fold s4. now rewrite C4. }
  assert (K : console s' = console s ++
                [LogValue (Int (toInt32 (jmul (Int a) (Int b)) mod 256))]).
  { rewrite S, E5. simpl console. rewrite E4. simpl console.
    rewrite E3. simpl console. rewrite E2. simpl console. now rewrite E1. }
  split.
  { rewrite K, toInt32_jmul_Int.
    pose proof (wrap32_mod_pow2 (a * b) 8 ltac:(lia)) as W.
    change (2 ^ 8) with 256 in W. now rewrite W. }
  split; [now rewrite S, E5|].
  split; [now rewrite S, E5|].
  split; [now rewrite S, E5|].
  intros n. change (run (5 + n) s) with (run (5 + n)%nat s).
  rewrite run_app. apply run_stopped. fold s'. now rewrite S, E5.
Qed.

End Footprint.

(** ** The first version, [ls8/cpu.js] *)

Section FirstVersion.

Context {mem : Memory}.

Lemma jmul_Int_nonneg a b :
  0 <= a -> 0 <= b -> jmul (Int a) (Int b) = Int (a * b).
Proof.
  intros Ha Hb. unfold jmul; simpl.
  destruct (Z.ltb_spec a 0); [lia|]. destruct (Z.ltb_spec b 0); [lia|].
  destruct (Z.eqb_spec a 0) as [->|Na]; simpl; [reflexivity|].
  destruct (Z.eqb_spec b 0) as [->|Nb]; simpl.
  - now rewrite Z.mul_0_r.
  - apply ofQ_integral. now rewrite inject_Z_mult.
Qed.

(** X18.  In the first version the ALU does not wrap.  On integer
    registers within the range [-2 ^ 53 .. 2 ^ 53], in which every integer
    is a double: [ADD] stores [a + b] when the sum is in that range, and
    the sum is no byte from 256 on; [MUL] stores [a * b] for non-negative
    operands whose product is in that range.  Any other [op] changes
    nothing. *)
Theorem ls8_alu_unmasked (s : cpu) (regA regB : value) (a b : Z) :
  getReg s regA = Int a ->
  getReg s regB = Int b ->
  Z.abs a <= 2 ^ 53 ->
  Z.abs b <= 2 ^ 53 ->
  (Z.abs (a + b) <= 2 ^ 53 ->
   getReg (Ls8.alu s "ADD" regA regB) regA = Int (a + b)) /\
  (0 <= a -> 0 <= b -> a * b <= 2 ^ 53 ->
   getReg (Ls8.alu s "MUL" regA regB) regA = Int (a * b)) /\
  (256 <= a + b <= 2 ^ 53 ->
   isByte (getReg (Ls8.alu s "ADD" regA regB) regA) = false) /\
  (forall op, op <> "ADD"%string -> op <> "MUL"%string ->
   Ls8.alu s op regA regB = s).
Proof.
  intros HA HB BA BB.
  assert (ADD : getReg (Ls8.alu s "ADD" regA regB) regA = Int (a + b)).
  { change (Ls8.alu s "ADD" regA regB)
      with (setReg s regA (jadd (getReg s regA) (getReg s regB))).
    now rewrite getReg_setReg_same, HA, HB, jadd_Int. }
  repeat split.
  - intros _. exact ADD.
  - intros Ha Hb _.
    change (Ls8.alu s "MUL" regA regB)
      with (setReg s regA (jmul (getReg s regA) (getReg s regB))).
    now rewrite getReg_setReg_same, HA, HB, jmul_Int_nonneg.
  - intros H. rewrite ADD. simpl.
    destruct (Z.ltb_spec (a + b) 256); [lia|]. apply andb_false_r.
  - intros op N1 N2. unfold Ls8.alu.
    apply String.eqb_neq in N1, N2. now rewrite N1, N2.
Qed.

Lemma ls8_bt_get_cases v h :
  Ls8.bt_get Ls8.branchTable v = Some h ->
  (key v = Int Op.HLT /\ h = Ls8.HLT) \/
  (key v = Int Op.LDI /\ h = Ls8.LDI) \/
  (key v = Int Op.MUL /\ h = Ls8.MUL) \/
  (key v = Int Op.ADD /\ h = Ls8.ADD) \/
  (key v = Int Op.PRN /\ h = Ls8.PRN).
Proof.
  unfold Ls8.bt_get. destruct (key v) as [| | | |z|]; try discriminate.
  destruct (find _ Ls8.branchTable) as [[k h']|] eqn:F; [|discriminate].
  intros [= <-]. apply find_some in F. destruct F as [I E].
  simpl in E. apply Z.eqb_eq in E. subst k.
  unfold Ls8.branchTable, Ls8.setupBranchTable in I; simpl in I.
  destruct I as [[= <- <-]|[[= <- <-]|[[= <- <-]|[[= <- <-]|[[= <- <-]|[]]]]]];
    tauto.
Qed.

Lemma ls8_tick_found s h :
  Ls8.bt_get Ls8.branchTable (read (ram s) (PC s)) = Some h ->
  Ls8.tick s =
  let s1 := h (set_IR s (read (ram s) (PC s)))
              (read (ram s) (jadd (PC s) (Int 1)))
              (read (ram s) (jadd (PC s) (Int 2))) in
  set_PC s1 (jadd (PC s1) (jadd (jand (jshr (IR s1) (Int 6)) (Int 3)) (Int 1))).
Proof. intros H. unfold Ls8.tick. simpl IR. now rewrite H. Qed.

Lemma key_Int_nonzero v z : key v = Int z -> z <> 0 -> v = Int z.
Proof.
  destruct v; simpl; try discriminate.
  - intros [= <-] N. now elim N.
  - auto.
Qed.

(** X19.  A tick of the first version: when the fetched opcode [op] has
    a handler, PC advances by [1 + ((op >> 6) & 3)]; when it has none, the
    tick logs it, stops the clock and leaves PC alone. *)
Theorem ls8_tick_PC (s : cpu) (pc : Z) :
  PC s = Int pc ->
  (forall h op,
     key (read (ram s) (PC s)) = Int op ->
     Ls8.bt_get Ls8.branchTable (read (ram s) (PC s)) = Some h ->
     PC (Ls8.tick s) = Int (pc + 1 + Z.land (Z.shiftr op 6) 3)) /\
  (Ls8.bt_get Ls8.branchTable (read (ram s) (PC s)) = None ->
   PC (Ls8.tick s) = Int pc /\ clock (Ls8.tick s) = false /\
   console (Ls8.tick s) = console s ++ [LogInvalid (read (ram s) (PC s))]).
Proof.
  intros Hpc. split.
  - intros h op K F. rewrite (ls8_tick_found s h F). cbv zeta.
    destruct (ls8_bt_get_cases _ _ F) as [[K' ->]|[[K' ->]|[[K' ->]|[[K' ->]|[K' ->]]]]];
      assert (E : op = ltac:(match type of K' with _ = Int ?o => exact o end))
        by congruence;
      subst op;
      rewrite (key_Int_nonzero _ _ K' ltac:(discriminate));
      simpl; rewrite Hpc;
      match goal with
      | |- jadd (Int pc) ?c = _ =>
          first [ change c with (Int 1) | change c with (Int 2)
                | change c with (Int 3) ]
      end; rewrite jadd_Int; f_equal; vm_compute Z.land; lia.
  - intros F. unfold Ls8.tick. simpl IR. rewrite F. simpl. now rewrite Hpc.
Qed.

Lemma ls8_tick_exec s pc op h n :
  PC s = Int pc ->
  read (ram s) (Int pc) = Int op ->
  Ls8.bt_get Ls8.branchTable (Int op) = Some h ->
  PC (h (set_IR s (Int op)) (read (ram s) (Int (pc + 1)))
        (read (ram s) (Int (pc + 2)))) = Int pc ->
  IR (h (set_IR s (Int op)) (read (ram s) (Int (pc + 1)))
        (read (ram s) (Int (pc + 2)))) = Int op ->
  jadd (jand (jshr (Int op) (Int 6)) (Int 3)) (Int 1) = Int n ->
  Ls8.tick s =
  set_PC (h (set_IR s (Int op)) (read (ram s) (Int (pc + 1)))
            (read (ram s) (Int (pc + 2))))
         (Int (pc + n)).
Proof.
  intros Hpc Hop F HP HI HC.
  assert (F' : Ls8.bt_get Ls8.branchTable (read (ram s) (PC s)) = Some h)
    by now rewrite Hpc, Hop.
  rewrite (ls8_tick_found s h F'). cbv zeta.
  rewrite Hpc, !jadd_Int, Hop, HP, HI, HC. now rewrite jadd_Int.
Qed.

Lemma ls8_run_stopped n s : clock s = false -> Ls8.run n s = s.
Proof. intros H. destruct n; simpl; [reflexivity | now rewrite H]. Qed.

Lemma ls8_run_app n m s : Ls8.run (n + m) s = Ls8.run m (Ls8.run n s).
Proof.
  revert s. induction n as [|n IH]; intros s; simpl.
  - reflexivity.
  - destruct (clock s) eqn:C; [apply IH|].
    symmetry. now apply ls8_run_stopped.
Qed.

(** X20.  On the first version the program [LDI R0,a; LDI R1,b;
    MUL R0,R1; PRN R0; HLT], with non-negative [a] and [b], prints the
    product [a * b] itself (not reduced modulo 256) and stops after five
    ticks. *)
Theorem ls8_mul_program (s : cpu) (pc a b : Z) :
  programAt s pc (mulProgram a b) ->
  PC s = Int pc ->
  clock s = true ->
  0 <= a -> 0 <= b ->
  let s' := Ls8.run 5 s in
  console s' = console s ++ [LogValue (Int (a * b))] /\
  PC s' = Int (pc + 12) /\
  clock s' = false /\
  forall n, Ls8.run (5 + n) s = s'.
Proof.
  intros P Hpc Hc Ha Hb s'.
  assert (R : forall (i : nat) z, (i < 12)%nat -> nth i (mulProgram a b) 0 = z ->
              forall x, x = pc + Z.of_nat i -> read (ram s) (Int x) = Int z).
  { intros i z L N x X. exact (programAt_read s pc _ i z P L N x X). }
  (* LDI R0,a *)
  assert (E1 : Ls8.tick s =
               set_PC (setReg (set_IR s (Int Op.LDI)) (Int 0) (Int a)) (Int (pc + 3))).
  { rewrite (ls8_tick_exec s pc Op.LDI Ls8.LDI 3 Hpc
               (R 0%nat Op.LDI ltac:(lia) eq_refl pc ltac:(lia)) eq_refl);
      try reflexivity; try exact Hpc.
    unfold Ls8.LDI.
    rewrite (R 1%nat 0 ltac:(lia) eq_refl (pc + 1) ltac:(lia)).
    now rewrite (R 2%nat a ltac:(lia) eq_refl (pc + 2) ltac:(lia)). }
  set (s1 := Ls8.tick s) in *.
  assert (M1 : ram s1 = ram s) by now rewrite E1.
  assert (P1 : PC s1 = Int (pc + 3)) by now rewrite E1.
  (* LDI R1,b *)
  assert (E2 : Ls8.tick s1 =
               set_PC (setReg (set_IR s1 (Int Op.LDI)) (Int 1) (Int b)) (Int (pc + 6))).
  { rewrite (ls8_tick_exec s1 (pc + 3) Op.LDI Ls8.LDI 3 P1);
      try reflexivity; try exact P1;
      [| rewrite M1; apply (R 3%nat); [lia|reflexivity|lia] ].
    unfold Ls8.LDI. rewrite M1.
    rewrite (R 4%nat 1 ltac:(lia) eq_refl (pc + 3 + 1) ltac:(lia)).
    rewrite (R 5%nat b ltac:(lia) eq_refl (pc + 3 + 2) ltac:(lia)).
    f_equal. f_equal. lia. }
  set (s2 := Ls8.tick s1) in *.
  assert (M2 : ram s2 = ram s) by now rewrite E2.
  assert (P2 : PC s2 = Int (pc + 6)) by now rewrite E2.
  assert (A2 : getReg s2 (Int 0) = Int a).
  { rewrite E2. change (getReg (set_PC ?x ?p) ?k) with (getReg x k).
    rewrite getReg_setReg_other by discriminate.
    change (getReg (set_IR ?x ?p) ?k) with (getReg x k).
    rewrite E1. change (getReg (set_PC ?x ?p) ?k) with (getReg x k).
    apply getReg_setReg_same. }
  assert (B2 : getReg s2 (Int 1) = Int b).
  { rewrite E2. change (getReg (set_PC ?x ?p) ?k) with (getReg x k).
    apply getReg_setReg_same. }
  (* MUL R0,R1 *)
  assert (E3 : Ls8.tick s2 =
               set_PC (setReg (set_IR s2 (Int Op.MUL)) (Int 0) (Int (a * b)))
                      (Int (pc + 9))).
  { rewrite (ls8_tick_exec s2 (pc + 6) Op.MUL Ls8.MUL 3 P2);
      try reflexivity; try exact P2;
      [| rewrite M2; apply (R 6%nat); [lia|reflexivity|lia] ].
    unfold Ls8.MUL. rewrite M2.
    rewrite (R 7%nat 0 ltac:(lia) eq_refl (pc + 6 + 1) ltac:(lia)).
    rewrite (R 8%nat 1 ltac:(lia) eq_refl (pc + 6 + 2) ltac:(lia)).
    change (Ls8.alu ?t "MUL" (Int 0) (Int 1))
      with (setReg t (Int 0) (jmul (getReg t (Int 0)) (getReg t (Int 1)))).
    change (getReg (set_IR s2 ?p) ?k) with (getReg s2 k).
    rewrite A2, B2, jmul_Int_nonneg by assumption.
    f_equal. f_equal. lia. }
  set (s3 := Ls8.tick s2) in *.
  assert (M3 : ram s3 = ram s) by now rewrite E3.
  assert (P3 : PC s3 = Int (pc + 9)) by now rewrite E3.
  assert (A3 : getReg s3 (Int 0) = Int (a * b)).
  { rewrite E3. change (getReg (set_PC ?x ?p) ?k) with (getReg x k).
    apply getReg_setReg_same. }
  (* PRN R0 *)
  assert (E4 : Ls8.tick s3 =
               set_PC (log (set_IR s3 (Int Op.PRN)) (LogValue (Int (a * b))))
                      (Int (pc + 11))).
  { rewrite (ls8_tick_exec s3 (pc + 9) Op.PRN Ls8.PRN 2 P3);
      try reflexivity; try exact P3;
      [| rewrite M3; apply (R 9%nat); [lia|reflexivity|lia] ].
    unfold Ls8.PRN. rewrite M3.
    rewrite (R 10%nat 0 ltac:(lia) eq_refl (pc + 9 + 1) ltac:(lia)).
    change (getReg (set_IR s3 ?p) ?k) with (getReg s3 k).
    rewrite A3. f_equal. f_equal. lia. }
  set (s4 := Ls8.tick s3) in *.
  assert (M4 : ram s4 = ram s) by now rewrite E4.
  assert (P4 : PC s4 = Int (pc + 11)) by now rewrite E4.
  (* HLT *)
  assert (E5 : Ls8.tick s4 =
               set_PC (Ls8.stopClock (set_IR s4 (Int Op.HLT))) (Int (pc + 12))).
  { rewrite (ls8_tick_exec s4 (pc + 11) Op.HLT Ls8.HLT 1 P4);
      try reflexivity; try exact P4;
      [| rewrite M4; apply (R 11%nat); [lia|reflexivity|lia] ].
    unfold Ls8.HLT. f_equal. f_equal. lia. }
  assert (C1 : clock s1 = true) by (rewrite E1; exact Hc).
  assert (C2 : clock s2 = true) by (rewrite E2; exact C1).
  assert (C3 : clock s3 = true) by (rewrite E3; exact C2).
  assert (C4 : clock s4 = true) by (rewrite E4; exact C3).
  assert (S : s' = Ls8.tick s4).
  { subst s'. simpl. rewrite Hc. fold s1. rewrite C1. fold s2. rewrite C2.
    fold s3. rewrite C3. fold s4. now rewrite C4. }
  split.
  { rewrite S, E5. simpl console. rewrite E4. simpl console.
    rewrite E3. simpl console. rewrite E2. simpl console. now rewrite E1. }
  split; [now rewrite S, E5|].
  split; [now rewrite S, E5|].
  intros n. change (Ls8.run (5 + n) s) with (Ls8.run (5 + n)%nat s).
  rewrite ls8_run_app. apply ls8_run_stopped. fold s'. now rewrite S, E5.
Qed.

End FirstVersion.

(** ** The further properties at concrete machines *)

Lemma programAt_boot_mulProgram :
  programAt (boot (mulProgram 8 9)) 0 (mulProgram 8 9).
Proof.
  intros i Hi.
  do 12 (destruct i as [|i]; [reflexivity|]).
  simpl in Hi. lia.
Defined.

Lemma programAt_bootLs8_mulProgram :
  programAt (bootLs8 (mulProgram 8 9)) 0 (mulProgram 8 9).
Proof.
  intros i Hi.
  do 12 (destruct i as [|i]; [reflexivity|]).
  simpl in Hi. lia.
Defined.

Lemma getFlag_setFlag_witness :
  0 <= 1 < 31 /\
  getFlag (setFlag (boot []) 1 true) 1 = Int 1.
Proof.
  split; [lia|].
  refine (proj1 (getFlag_setFlag (boot []) 1 1 true _ _)); lia.
Defined.

Lemma alu_bitwise_bytes_witness :
  getReg (bootWith [] 12 10) (Int 0) = Int 12 /\
  getReg (bootWith [] 12 10) (Int 1) = Int 10 /\
  getReg (alu (bootWith [] 12 10) "AND" (Int 0) (Int 1)) (Int 0)
    = Int (Z.land 12 10).
Proof.
  split; [reflexivity|]. split; [reflexivity|].
  refine (proj1 (alu_bitwise_bytes (bootWith [] 12 10) (Int 0) (Int 1) 12 10
                   eq_refl eq_refl _ _)); lia.
Defined.

Lemma alu_masked_total_witness :
  In "ADD"%string maskedOps /\
  isNaN (getReg (boot []) (Int 9)) = true /\
  getReg (alu (boot []) "ADD" (Int 9) (Int 0)) (Int 9) = Int 0.
Proof.
  split; [left; reflexivity|]. split; [reflexivity|].
  exact (proj2 (alu_masked_total (boot []) "ADD" (Int 9) (Int 0)
                  (or_introl eq_refl)) eq_refl).
Defined.

Lemma alu_unknown_op_witness :
  ~ In "NOP"%string aluOps /\
  alu (boot []) "NOP" (Int 0) (Int 1) = boot [].
Proof.
  assert (N : ~ In "NOP"%string aluOps).
  { intros H. simpl in H.
    repeat (destruct H as [H|H]; [discriminate H|]). exact H. }
  split; [exact N|].
  exact (alu_unknown_op (boot []) "NOP" (Int 0) (Int 1) N).
Defined.

Lemma alu_inverses_witness :
  getReg (bootWith [] 200 100) (Int 0) = Int 200 /\
  getReg (bootWith [] 200 100) (Int 1) = Int 100 /\
  getReg (alu (alu (bootWith [] 200 100) "ADD" (Int 0) (Int 1))
            "SUB" (Int 0) (Int 1)) (Int 0) = Int 200.
Proof.
  split; [reflexivity|]. split; [reflexivity|].
  refine (proj1 (proj2 (proj2 (alu_inverses (bootWith [] 200 100)
                                 (Int 0) (Int 1) 200 100
                                 eq_refl eq_refl _ _ _))));
    [lia | lia | discriminate].
Defined.

Lemma stack_is_lifo_witness :
  isByte (Int 1) = true /\ isByte (Int 2) = true /\
  isByte (getReg (boot []) (Int SP)) = true /\
  snd (_pop (_push (_push (boot []) (Int 1)) (Int 2))) = Int 2 /\
  snd (_pop (fst (_pop (_push (_push (boot []) (Int 1)) (Int 2))))) = Int 1.
Proof.
  split; [reflexivity|]. split; [reflexivity|]. split; [reflexivity|].
  destruct (stack_is_lifo (boot []) (Int 1) (Int 2) eq_refl eq_refl eq_refl)
    as [A [B _]].
  exact (conj A B).
Defined.

Lemma store_then_load_witness :
  isByte (getReg (bootWith [] 50 77) (Int 0)) = true /\
  isByte (getReg (bootWith [] 50 77) (Int 1)) = true /\
  getReg (fst (LD (fst (ST (bootWith [] 50 77) (Int 0) (Int 1)))
                 (Int 2) (Int 0))) (Int 2)
    = getReg (bootWith [] 50 77) (Int 1).
Proof.
  split; [reflexivity|]. split; [reflexivity|].
  exact (proj2 (store_then_load (bootWith [] 50 77) (Int 0) (Int 1) (Int 2)
                  eq_refl eq_refl)).
Defined.

Lemma tick_non_byte_halts_witness :
  isByte (key (read (ram (set_PC (boot []) (Int 256)))
                 (PC (set_PC (boot []) (Int 256))))) = false /\
  clock (tick (set_PC (boot []) (Int 256))) = false /\
  PC (tick (set_PC (boot []) (Int 256))) = Int 256.
Proof.
  split; [reflexivity|].
  destruct (tick_non_byte_halts (set_PC (boot []) (Int 256)) eq_refl)
    as [A [B _]].
  exact (conj A B).
Defined.

Lemma tick_HLT_witness :
  PC (boot [Op.HLT]) = Int 0 /\
  read (ram (boot [Op.HLT])) (Int 0) = Int Op.HLT /\
  clock (tick (boot [Op.HLT])) = false /\
  PC (tick (boot [Op.HLT])) = Int 1.
Proof.
  split; [reflexivity|]. split; [reflexivity|].
  rewrite (tick_HLT (boot [Op.HLT]) 0 eq_refl eq_refl).
  split; reflexivity.
Defined.

Lemma tick_jump_witness :
  In Op.JMP (Op.JMP :: condJumps) /\
  PC (bootWith [Op.JMP; 0] 16 0) = Int 0 /\
  read (ram (bootWith [Op.JMP; 0] 16 0)) (Int 0) = Int Op.JMP /\
  PC (tick (bootWith [Op.JMP; 0] 16 0)) = Int 16.
Proof.
  split; [left; reflexivity|]. split; [reflexivity|]. split; [reflexivity|].
  exact (proj1 (tick_jump (bootWith [Op.JMP; 0] 16 0) 0 Op.JMP
                  (or_introl eq_refl) eq_refl eq_refl)).
Defined.

Lemma cmp_then_jump_witness :
  In Op.JEQ condJumps /\
  PC (setReg (bootWith [Op.CMP; 0; 1; Op.JEQ; 2] 5 5) (Int 2) (Int 20))
    = Int 0 /\
  PC (tick (tick (setReg (bootWith [Op.CMP; 0; 1; Op.JEQ; 2] 5 5)
                    (Int 2) (Int 20)))) = Int 20.
Proof.
  split; [left; reflexivity|]. split; [reflexivity|].
  refine (cmp_then_jump
            (setReg (bootWith [Op.CMP; 0; 1; Op.JEQ; 2] 5 5) (Int 2) (Int 20))
            0 Op.JEQ 5 5 (or_introl eq_refl) eq_refl eq_refl eq_refl
            eq_refl eq_refl _).
  discriminate.
Defined.

Lemma ldi_then_prn_witness :
  PC (boot [Op.LDI; 0; 5; Op.PRN; 0]) = Int 0 /\
  read (ram (boot [Op.LDI; 0; 5; Op.PRN; 0])) (Int 0) = Int Op.LDI /\
  console (tick (tick (boot [Op.LDI; 0; 5; Op.PRN; 0])))
    = console (boot [Op.LDI; 0; 5; Op.PRN; 0]) ++ [LogValue (Int 5)].
Proof.
  split; [reflexivity|]. split; [reflexivity|].
  exact (proj1 (ldi_then_prn (boot [Op.LDI; 0; 5; Op.PRN; 0]) 0
                  eq_refl eq_refl eq_refl eq_refl)).
Defined.

Lemma mul_program_witness :
  programAt (boot (mulProgram 8 9)) 0 (mulProgram 8 9) /\
  PC (boot (mulProgram 8 9)) = Int 0 /\
  clock (boot (mulProgram 8 9)) = true /\
  console (run 5 (boot (mulProgram 8 9)))
    = console (boot (mulProgram 8 9)) ++ [LogValue (Int ((8 * 9) mod 256))].
Proof.
  split; [exact programAt_boot_mulProgram|].
  split; [reflexivity|]. split; [reflexivity|].
  exact (proj1 (mul_program (boot (mulProgram 8 9)) 0 8 9
                  programAt_boot_mulProgram eq_refl eq_refl)).
Defined.

Lemma ls8_alu_unmasked_witness :
  getReg (bootWith [] 200 100) (Int 0) = Int 200 /\
  getReg (bootWith [] 200 100) (Int 1) = Int 100 /\
  Z.abs 200 <= 2 ^ 53 /\
  Z.abs 100 <= 2 ^ 53 /\
  Z.abs (200 + 100) <= 2 ^ 53 /\
  getReg (Ls8.alu (bootWith [] 200 100) "ADD" (Int 0) (Int 1)) (Int 0)
    = Int (200 + 100).
Proof.
  assert (BA : Z.abs 200 <= 2 ^ 53) by (vm_compute; discriminate).
  assert (BB : Z.abs 100 <= 2 ^ 53) by (vm_compute; discriminate).
  assert (BS : Z.abs (200 + 100) <= 2 ^ 53) by (vm_compute; discriminate).
  split; [reflexivity|]. split; [reflexivity|].
  split; [exact BA|]. split; [exact BB|]. split; [exact BS|].
  exact (proj1 (ls8_alu_unmasked (bootWith [] 200 100) (Int 0) (Int 1) 200 100
                  eq_refl eq_refl BA BB) BS).
Defined.

Lemma ls8_tick_PC_witness :
  PC (bootLs8 [Op.LDI; 0; 5]) = Int 0 /\
  PC (Ls8.tick (bootLs8 [Op.LDI; 0; 5]))
    = Int (0 + 1 + Z.land (Z.shiftr Op.LDI 6) 3).
Proof.
  split; [reflexivity|].
  exact (proj1 (ls8_tick_PC (bootLs8 [Op.LDI; 0; 5]) 0 eq_refl)
           Ls8.LDI Op.LDI eq_refl eq_refl).
Defined.

Lemma ls8_mul_program_witness :
  programAt (bootLs8 (mulProgram 8 9)) 0 (mulProgram 8 9) /\
  PC (bootLs8 (mulProgram 8 9)) = Int 0 /\
  clock (bootLs8 (mulProgram 8 9)) = true /\
  0 <= 8 /\ 0 <= 9 /\
  console (Ls8.run 5 (bootLs8 (mulProgram 8 9)))
    = console (bootLs8 (mulProgram 8 9)) ++ [LogValue (Int (8 * 9))].
Proof.
  split; [exact programAt_bootLs8_mulProgram|].
  split; [reflexivity|]. split; [reflexivity|].
  split; [lia|]. split; [lia|].
  refine (proj1 (ls8_mul_program (bootLs8 (mulProgram 8 9)) 0 8 9
                   programAt_bootLs8_mulProgram eq_refl eq_refl _ _)); lia.
Defined.
